(** * Research bot (agent.py): search aggregation, report pipeline,
      message chunking and the per-user conversation state machine.

    A shallow embedding of [src/agent.py].  Python values are modelled as
    the code uses them: a [str] is a sequence of Unicode code points, a
    [dict] whose order matters is an association list, a [set] is a
    [gset], an exception is a value of [exn] returned on the left of a
    sum, and the handlers run in a small state-and-exception monad whose
    state survives a raise (what the handler mutated before raising stays
    mutated). *)

From Stdlib Require Import ZArith NArith Lia String Ascii DecimalString.
From stdpp Require Import base option list gmap sets.

Local Open Scope Z_scope.

(** ** Python strings and the built-ins the source calls *)

Module Py.

(** A code point; a Python 3 [str] is a sequence of them and [len] counts
    them. *)
Abbreviation char := N (only parsing).
Abbreviation pystr := (list N) (only parsing).

(** A literal of the source, written in ASCII. *)
Definition u (s : string) : pystr := N_of_ascii <$> list_ascii_of_string s.
#[global] Arguments u : simpl never.

(** [len(x)] *)
Definition len {A} (l : list A) : Z := Z.of_nat (length l).

(** The exceptions that the modelled code can raise or let through.
    [ServiceError], [ProviderError] and [TransportError] stand for whatever
    the Reasoning Service, a search provider or the Telegram transport
    raises. *)
Inductive exn : Type :=
| IndexError | KeyError | TypeError | AttributeError | UnboundLocalError
| ServiceError | ProviderError | TransportError.

(** The code points [str.splitlines] treats as line boundaries:
    \n \v \f \r \x1c \x1d \x1e \x85     (and \r\n as one). *)
Definition linebreaks : list char :=
  [10; 11; 12; 13; 28; 29; 30; 133; 8232; 8233]%N.

Definition is_linebreak (c : char) : bool := bool_decide (c ∈ linebreaks).

(** [s.splitlines(keepends=True)], scanning left to right with the line
    under construction in [cur]; a final line without terminator is kept
    when it is not empty. *)
Fixpoint splitlines_from (cur s : pystr) : list pystr :=
  match s with
  | [] => match cur with [] => [] | _ => [cur] end
  | c :: rest =>
      if is_linebreak c then
        match rest with
        | c' :: rest' =>
            if (c =? 13)%N && (c' =? 10)%N
            then (cur ++ [c; c']) :: splitlines_from [] rest'
            else (cur ++ [c]) :: splitlines_from [] rest
        | [] => [cur ++ [c]]
        end
      else splitlines_from (cur ++ [c]) rest
  end.

Definition splitlines_keepends (s : pystr) : list pystr := splitlines_from [] s.

(** A line with its end kept: characters that are not line boundaries,
    then nothing, one line boundary, or \r\n. *)
Definition is_line (l : pystr) : Prop :=
  exists body term,
    l = body ++ term /\
    Forall (fun c => is_linebreak c = false) body /\
    (term = [] \/ term = [13; 10]%N \/ exists c, term = [c] /\ is_linebreak c = true).

(** [s.split("\n")]: always at least one field, empty fields kept. *)
Fixpoint split_nl_from (cur s : pystr) : list pystr :=
  match s with
  | [] => [cur]
  | c :: rest =>
      if (c =? 10)%N then cur :: split_nl_from [] rest
      else split_nl_from (cur ++ [c]) rest
  end.

Definition split_nl (s : pystr) : list pystr := split_nl_from [] s.

(** [sep.join(xs)] *)
Fixpoint join (sep : pystr) (xs : list pystr) : pystr :=
  match xs with
  | [] => []
  | [x] => x
  | x :: xs' => x ++ sep ++ join sep xs'
  end.

(** The code points [str.strip()] removes: those for which
    [str.isspace] holds. *)
Definition is_space (c : char) : bool :=
  ((9 <=? c) && (c <=? 13) || (28 <=? c) && (c <=? 32) ||
   (c =? 133) || (c =? 160) || (c =? 5760) ||
   (8192 <=? c) && (c <=? 8202) || (c =? 8232) || (c =? 8233) ||
   (c =? 8239) || (c =? 8287) || (c =? 12288))%N.

Fixpoint lstrip (s : pystr) : pystr :=
  match s with
  | c :: rest => if is_space c then lstrip rest else s
  | [] => []
  end.

Definition strip (s : pystr) : pystr := reverse (lstrip (reverse (lstrip s))).

(** [c in s] for a one-character [c]. *)
Definition contains_char (c : char) (s : pystr) : bool := bool_decide (c ∈ s).

(** [xs[i]] on a list, with Python's negative indices. *)
Definition index {A} (xs : list A) (i : Z) : exn + A :=
  let j := if i <? 0 then i + len xs else i in
  if j <? 0 then inl IndexError
  else match xs !! Z.to_nat j with
       | Some x => inr x
       | None => inl IndexError
       end.

(** [str(n)] for an [int]. *)
Definition str_of_int (n : Z) : pystr :=
  u (DecimalString.NilZero.string_of_int (Z.to_int n)).

(** A [dict] with [str] keys, in insertion order. *)
Definition dict (V : Type) : Type := list (pystr * V).

(** [d[k] = v]: an existing key keeps its position and takes the new
    value, a new key goes last. *)
Fixpoint dict_set {V} (d : dict V) (k : pystr) (v : V) : dict V :=
  match d with
  | [] => [(k, v)]
  | (k', v') :: d' =>
      if decide (k' = k) then (k, v) :: d' else (k', v') :: dict_set d' k v
  end.

End Py.

Import Py.

(** ** [_split_message] *)

Module Chunk.

(** The [for line in lines] loop, on the pair [(out, buf)]. *)
Fixpoint split_loop (limit : Z) (lines : list pystr) (out : list pystr) (buf : pystr)
  : list pystr * pystr :=
  match lines with
  | [] => (out, buf)
  | line :: lines' =>
      if len buf + len line >? limit
      then split_loop limit lines' (out ++ [buf]) ([] ++ line)
      else split_loop limit lines' out (buf ++ line)
  end.

Definition _split_message (md : pystr) (limit : Z) : list pystr :=
  let lines := splitlines_keepends md in
  let '(out, buf) := split_loop limit lines [] [] in
  match buf with
  | [] => out
  | _ => out ++ [buf]
  end.

(** The default [limit] of the signature. *)
Definition default_limit : Z := 4096.

(** A chunk, seen as the lines it is made of, is within the limit or is
    one line longer than the limit. *)
Definition chunk_ok (limit : Z) (g : list pystr) : Prop :=
  len (concat g) <= limit ∨ ∃ line, g = [line] ∧ limit < len line.

(** Chunks, seen as groups of lines, are filled greedily: the first line
    of each chunk after the first did not fit in the chunk before it. *)
Fixpoint greedy (limit : Z) (groups : list (list pystr)) : Prop :=
  match groups with
  | g1 :: ((g2 :: _) as rest) =>
      match g2 with
      | line :: _ => limit < len (concat g1) + len line
      | [] => False
      end /\ greedy limit rest
  | _ => True
  end.

End Chunk.

Import Chunk.

(** ** The [exn + A] results of fallible calls *)

Definition ebind {A B} (c : exn + A) (k : A -> exn + B) : exn + B :=
  match c with
  | inl e => inl e
  | inr a => k a
  end.

Declare Scope err_scope.
Delimit Scope err_scope with err.
Notation "'let*' x := c 'in' k" := (ebind c (fun x => k))
  (at level 10, x name, c at level 100, k at level 200) : err_scope.

(** [x or []] on a value that may be missing or [None]. *)
Definition or_empty {A} (x : option (list A)) : list A := default [] x.

(** ** Search aggregation: [tavily_search], [serp_search], [search_web] *)

Module WebSearch.

(** What the two clients hand back, as far as the code reads it.  A field
    is [None] when the key is absent from the JSON object. *)
Record tavily_result := { tr_url : option pystr; tr_title : option pystr }.
Record tavily_response := { tv_results : option (list tavily_result) }.
Record extracted := { ex_url : option pystr; ex_raw_content : option pystr }.
Record failed_result := { fl_url : option pystr }.
Record extract_response := {
  ex_results : option (list extracted);
  ex_failed_results : option (list failed_result)
}.
Record organic_result := {
  og_link : option pystr; og_title : option pystr; og_snippet : option pystr
}.
Record serp_response := { organic_results : option (list organic_result) }.

(** The two providers: each call returns or raises. *)
Record providers := {
  client_search : pystr -> exn + tavily_response;
  client_extract : list pystr -> exn + extract_response;
  get_dict : pystr -> exn + serp_response
}.

(** One evidence row, the dict with keys "url", "title" and, once set,
    "content". *)
Record source := { url : pystr; title : pystr; content : option pystr }.

#[global] Instance source_eq_dec : EqDecision source.
Proof. solve_decision. Defined.

(** What a provider said of a row, whatever content is attached later. *)
Definition url_title (s : source) : pystr * pystr := (url s, title s).

Definition set_content (s : source) (c : pystr) : source :=
  {| url := url s; title := title s; content := Some c |}.

(** The inner [for source in context["sources"]] loop for one extracted
    page. *)
Definition attach (e : extracted) (sources : list source) : list source :=
  (fun s => if decide (Some (url s) = ex_url e)
            then set_content s (default [] (ex_raw_content e))
            else s) <$> sources.

(** The outer [for extracted in ...] loop. *)
Definition attach_all (es : list extracted) (sources : list source) : list source :=
  foldl (fun srcs e => attach e srcs) sources es.

Definition sources_of (response : tavily_response) : list source :=
  (fun r => {| url := default [] (tr_url r);
               title := default [] (tr_title r);
               content := None |}) <$> or_empty (tv_results response).

Definition urls_to_extract_of (sources : list source) : list pystr :=
  url <$> filter (fun s => url s ≠ []) sources.

Definition failed_urls_of (er : extract_response) : gset (option pystr) :=
  list_to_set (fl_url <$> or_empty (ex_failed_results er)).

Definition tavily_search (P : providers) (query : pystr) : exn + list source :=
  (let* response := client_search P query in
   let sources := sources_of response in
   let urls_to_extract := urls_to_extract_of sources in
   match urls_to_extract with
   | [] => inr sources
   | _ =>
       let* extract_response := client_extract P urls_to_extract in
       let sources := attach_all (or_empty (ex_results extract_response)) sources in
       let failed_urls := failed_urls_of extract_response in
       inr (if decide (failed_urls = ∅) then sources
            else filter (fun s => Some (url s) ∉ failed_urls) sources)
   end)%err.

Definition serp_search (P : providers) (query : pystr) : exn + list source :=
  (let* results := get_dict P query in
   inr ((fun item => {| url := default [] (og_link item);
                        title := default [] (og_title item);
                        content := Some (default [] (og_snippet item)) |})
        <$> take 5 (or_empty (organic_results results))))%err.

Definition search_web (P : providers) (query : pystr) : exn + list source :=
  (let* a := tavily_search P query in
   let* b := serp_search P query in
   inr (a ++ b))%err.

End WebSearch.

(** ** The conversation: Reasoning Service, pipeline and handlers *)

Module Bot.

(** *** The Reasoning Service as the code sees it *)

(** [types.Part], [types.Content] and an event of [run_async]; [text] and
    [parts] may be [None], and so may [event.content]. *)
Record Part := { text : option pystr }.
Record Content := { parts : option (list Part) }.
Record Event := { is_final_response : bool; content : option Content }.

(** What iterating [run_async(...)] produces: events, until the generator
    is exhausted or raises. *)
Inductive stream : Type :=
| Exhausted
| Raises (e : exn)
| Yield (event : Event) (rest : stream).

(** The keys of [RUNNERS]. *)
Inductive runner : Type :=
| clarify_runner | refine_runner | planner_runner
| search_runner | writer_runner | email_runner.

(** A request made to the service; [new_message] is the [text] of the one
    part of the user message. *)
Inductive request : Type :=
| CreateSession (user_id session_id : pystr)
| RunAsync (r : runner) (user_id session_id : pystr) (new_message : option pystr).

(** What the bot sends through the chat transport. *)
Inductive sent : Type :=
| Typing
| Reply (text : pystr)
| ReplyMarkdownV2 (text : pystr).

(** Everything outside the source file: the service answers a request
    knowing the requests made before it; the transport delivers a message
    ([None]) or raises; [str.lower] and telegram's [escape_markdown] are
    library functions. *)
Record environment := {
  run_async : list request -> runner -> pystr -> pystr -> option pystr -> stream;
  create_session : list request -> pystr -> pystr -> option exn;
  deliver : list sent -> sent -> option exn;
  lower : pystr -> pystr;
  escape_markdown : pystr -> pystr
}.

(** *** Session data *)

Inductive Stage : Type := WAITING_QUERY | ASKING | EMAIL_DECISION | EMAIL_ADDR.

#[global] Instance Stage_eq_dec : EqDecision Stage.
Proof. solve_decision. Defined.

(** [context.user_data]: the invoking user's dict; a field is [None] when
    its key is absent. *)
Record user_data := {
  stage : option Stage;
  questions : option (list pystr);
  query : option pystr;
  answers : option (dict pystr);
  q_idx : option Z;
  report : option pystr
}.

(** [user_data.clear()] *)
Definition cleared : user_data :=
  {| stage := None; questions := None; query := None;
     answers := None; q_idx := None; report := None |}.

Definition set_stage (s : Stage) (d : user_data) : user_data :=
  {| stage := Some s; questions := questions d; query := query d;
     answers := answers d; q_idx := q_idx d; report := report d |}.

Definition set_answers (a : dict pystr) (d : user_data) : user_data :=
  {| stage := stage d; questions := questions d; query := query d;
     answers := Some a; q_idx := q_idx d; report := report d |}.

Definition set_q_idx (i : Z) (d : user_data) : user_data :=
  {| stage := stage d; questions := questions d; query := query d;
     answers := answers d; q_idx := Some i; report := report d |}.

Definition set_report (r : pystr) (d : user_data) : user_data :=
  {| stage := stage d; questions := questions d; query := query d;
     answers := answers d; q_idx := q_idx d; report := Some r |}.

(** [user_data.update({"stage": ASKING, "questions": ..., "query": ...,
    "answers": {}, "q_idx": 0})] *)
Definition update_asking (qs : list pystr) (q : pystr) (d : user_data) : user_data :=
  {| stage := Some ASKING; questions := Some qs; query := Some q;
     answers := Some []; q_idx := Some 0; report := report d |}.

(** The state a handler runs in: the user's data, the requests made to the
    service so far and the messages delivered so far. *)
Record world := {
  user : user_data;
  requests : list request;
  outbox : list sent
}.

Definition initial_world : world :=
  {| user := cleared; requests := []; outbox := [] |}.

Definition with_user (f : user_data -> user_data) (w : world) : world :=
  {| user := f (user w); requests := requests w; outbox := outbox w |}.

Definition add_request (rq : request) (w : world) : world :=
  {| user := user w; requests := requests w ++ [rq]; outbox := outbox w |}.

Definition add_sent (m : sent) (w : world) : world :=
  {| user := user w; requests := requests w; outbox := outbox w ++ [m] |}.

(** *** The monad of the handlers: state that survives a raise *)

Definition M (A : Type) : Type := world -> world * (exn + A).

Definition ret {A} (a : A) : M A := fun w => (w, inr a).
Definition raise {A} (e : exn) : M A := fun w => (w, inl e).
Definition bind {A B} (c : M A) (k : A -> M B) : M B :=
  fun w => match c w with
           | (w', inl e) => (w', inl e)
           | (w', inr a) => k a w'
           end.
Definition lift {A} (r : exn + A) : M A := fun w => (w, r).

Declare Scope m_scope.
Delimit Scope m_scope with M.
Notation "'let*' x := c 'in' k" := (bind c (fun x => k))
  (at level 10, x name, c at level 100, k at level 200) : m_scope.
Notation "c ;; k" := (bind c (fun _ => k))
  (at level 100, k at level 200, right associativity) : m_scope.

(** [user_data.get(key, default)] *)
Definition get {A} (f : user_data -> option A) (d : A) : M A :=
  fun w => (w, inr (default d (f (user w)))).

(** [user_data[key]] *)
Definition item {A} (f : user_data -> option A) : M A :=
  fun w => (w, match f (user w) with Some a => inr a | None => inl KeyError end).

Definition modify (f : user_data -> user_data) : M unit :=
  fun w => (with_user f w, inr tt).

(** [for x in xs: body(x)] *)
Fixpoint for_each {A} (xs : list A) (body : A -> M unit) : M unit :=
  match xs with
  | [] => ret tt
  | x :: xs' => (body x ;; for_each xs' body)%M
  end.

(** A local variable that a loop may have left unbound: reading it then
    raises. *)
Definition bound {A} (x : option A) : M A :=
  match x with
  | Some a => ret a
  | None => raise UnboundLocalError
  end.

Definition nl : pystr := [10%N].

(** *** The loops over the events of each stage *)

(** refine: the first final event with a non-empty [parts] gives
    [parts[0].text] and ends the loop. *)
Fixpoint refine_loop (s : stream) : exn + option (option pystr) :=
  match s with
  | Exhausted => inr None
  | Raises e => inl e
  | Yield event rest =>
      if is_final_response event then
        match content event with
        | None => inl AttributeError
        | Some c =>
            match parts c with
            | Some (p :: _) => inr (Some (text p))
            | _ => refine_loop rest
            end
        end
      else refine_loop rest
  end.

(** planner: the first final event with a content gives [parts[0].text]
    and ends the loop. *)
Fixpoint planner_loop (s : stream) : exn + option (option pystr) :=
  match s with
  | Exhausted => inr None
  | Raises e => inl e
  | Yield event rest =>
      if is_final_response event then
        match content event with
        | None => planner_loop rest
        | Some c =>
            match parts c with
            | None => inl TypeError
            | Some [] => inl IndexError
            | Some (p :: _) => inr (Some (text p))
            end
        end
      else planner_loop rest
  end.

(** search and writer: every part of every final event with a content is
    appended (a [types.Part] always has the attribute [text]); the loop
    runs to the end of the stream. *)
Fixpoint collect_loop (s : stream) (acc : list (option pystr)) : exn + list (option pystr) :=
  match s with
  | Exhausted => inr acc
  | Raises e => inl e
  | Yield event rest =>
      if is_final_response event then
        match content event with
        | None => collect_loop rest acc
        | Some c =>
            match parts c with
            | None => inl TypeError
            | Some ps => collect_loop rest (acc ++ (text <$> ps))
            end
        end
      else collect_loop rest acc
  end.

(** The items of a list given to [str.join] must all be [str]. *)
Fixpoint all_str (xs : list (option pystr)) : exn + list pystr :=
  match xs with
  | [] => inr []
  | None :: _ => inl TypeError
  | Some x :: xs' => (let* r := all_str xs' in inr (x :: r))%err
  end.

(** ["\n".join(xs)] *)
Definition join_lines (xs : list (option pystr)) : exn + pystr :=
  (let* ys := all_str xs in inr (join nl ys))%err.

(** [[q.strip() for q in text.split("\n") if q.strip()]] *)
Definition question_lines (text : pystr) : list pystr :=
  strip <$> filter (fun q => strip q ≠ []) (split_nl text).

(** clarify: every final event with a content overwrites [questions]. *)
Fixpoint clarify_loop (s : stream) (questions : list pystr) : exn + list pystr :=
  match s with
  | Exhausted => inr questions
  | Raises e => inl e
  | Yield event rest =>
      if is_final_response event then
        match content event with
        | None => clarify_loop rest questions
        | Some c =>
            match parts c with
            | None => inl TypeError
            | Some [] => inl IndexError
            | Some (p :: _) =>
                match text p with
                | None => inl AttributeError
                | Some text => clarify_loop rest (question_lines text)
                end
            end
        end
      else clarify_loop rest questions
  end.

(** email: the loop ends at the first final event. *)
Fixpoint email_loop (s : stream) : exn + unit :=
  match s with
  | Exhausted => inr tt
  | Raises e => inl e
  | Yield event rest =>
      if is_final_response event then inr tt else email_loop rest
  end.

Definition affirmations : list pystr := [u "yes"; u "y"; u "yeah"; u "sure"].

Section WithEnvironment.

Variable env : environment.

(** [reply_text] / [send_action] *)
Definition send (m : sent) : M unit :=
  fun w => match deliver env (outbox w) m with
           | None => (add_sent m w, inr tt)
           | Some e => (w, inl e)
           end.

(** [RUNNERS[r].run_async(user_id=..., session_id=..., new_message=...)] *)
Definition run (r : runner) (user_id session_id : pystr) (new_message : option pystr)
  : M stream :=
  fun w => (add_request (RunAsync r user_id session_id new_message) w,
            inr (run_async env (requests w) r user_id session_id new_message)).

(** [session_service.create_session(...)] *)
Definition new_session (user_id session_id : pystr) : M unit :=
  fun w => (add_request (CreateSession user_id session_id) w,
            match create_session env (requests w) user_id session_id with
            | None => inr tt
            | Some e => inl e
            end).

(** *** [create_report_pipline] *)

Definition combined_query_of (query : pystr) (answers : dict pystr) : pystr :=
  let combined_query := u "User query: " ++ query ++ nl ++ nl in
  combined_query ++ join nl ((fun qa => qa.1 ++ u "->" ++ qa.2) <$> answers).

Definition create_report_pipline (user_id query : pystr) (answers : dict pystr) : M pystr :=
  (let session_id := u "tg_" ++ user_id in
   let combined_query := combined_query_of query answers in
   let* events := run refine_runner user_id session_id (Some combined_query) in
   let* refined_query := lift (refine_loop events) in
   let* refined_query := bound refined_query in
   let* events := run planner_runner user_id session_id refined_query in
   let* search_plan := lift (planner_loop events) in
   let* search_plan := bound search_plan in
   let* events := run search_runner user_id session_id search_plan in
   let* search_results := lift (collect_loop events []) in
   let* search_results := lift (join_lines search_results) in
   let* events := run writer_runner user_id session_id (Some search_results) in
   let* full_report_parts := lift (collect_loop events []) in
   let* report := lift (join_lines full_report_parts) in
   ret report)%M.

(** *** The handlers *)

Record Update := { effective_user_id : Z; message_text : pystr }.

Definition start : M unit :=
  (modify (fun _ => cleared) ;;
   modify (set_stage WAITING_QUERY) ;;
   send (Reply ([128075%N] ++
     u " Hi! I'm a research assistant.Send me any research question and I'll investigate.")))%M.

(** The second definition of [cancel] is the one in force. *)
Definition cancel : M unit :=
  (modify (fun _ => cleared) ;;
   send (Reply (u "Bye! See you next time.")))%M.

Definition handle_text (update : Update) : M unit :=
  (let* stage := get stage WAITING_QUERY in
   let uid := str_of_int (effective_user_id update) in
   let text := strip (message_text update) in
   match stage with
   | WAITING_QUERY =>
       send Typing ;;
       new_session uid (u "tg_" ++ uid) ;;
       let* events := run clarify_runner uid (u "tg_" ++ uid) (Some text) in
       let* questions := lift (clarify_loop events []) in
       let questions := drop 1 questions in
       modify (update_asking questions text) ;;
       let* q0 := lift (index questions 0) in
       send (Reply q0)
   | ASKING =>
       let* q_idx := item q_idx in
       let* questions := item questions in
       let* current_q := lift (index questions q_idx) in
       let* answers := item answers in
       modify (set_answers (dict_set answers current_q text)) ;;
       modify (set_q_idx (q_idx + 1)) ;;
       if q_idx <? 2 then
         let* next_q := lift (index questions (q_idx + 1)) in
         send (Reply next_q)
       else
         send (Reply (u "I have all the information I need. I'm working on your report now.")) ;;
         send Typing ;;
         let* query := item query in
         let* answers := item Bot.answers in
         let* report := create_report_pipline uid query answers in
         modify (set_report report) ;;
         for_each (_split_message report default_limit)
                  (fun chunk => send (ReplyMarkdownV2 (escape_markdown env chunk))) ;;
         modify (set_stage EMAIL_DECISION) ;;
         send (Reply (u "Do you want to email the report to yourself? (yes/no)"))
   | EMAIL_DECISION =>
       if bool_decide (lower env text ∈ affirmations) then
         modify (set_stage EMAIL_ADDR) ;;
         send (Reply (u "Great! Please provide the email address."))
       else
         send (Reply (u "No problem. Do you have any question?")) ;;
         modify (set_stage WAITING_QUERY)
   | EMAIL_ADDR =>
       let email := strip text in
       if negb (contains_char 64%N email) then
         send (Reply (u "That doesn't look like an e-mail address. Try again."))
       else
         send Typing ;;
         let session_id := u "tg_" ++ uid in
         let* report := item report in
         let prompt := u "Report to send:" ++ nl ++ nl ++ report ++ nl ++ nl ++
                       u "E-mail address: " ++ email in
         let* events := run email_runner uid session_id (Some prompt) in
         lift (email_loop events) ;;
         send (Reply (u "Sent! " ++ [9989%N])) ;;
         modify (set_stage WAITING_QUERY)
   end)%M.

(** *** What the application delivers to the handlers *)

Inductive incoming : Type :=
| command_start
| command_cancel
| text_message (update : Update).

Definition dispatch (i : incoming) : M unit :=
  match i with
  | command_start => start
  | command_cancel => cancel
  | text_message update => handle_text update
  end.

(** The session states that some sequence of incoming messages produces,
    whether the handlers returned or raised. *)
Inductive reachable : world -> Prop :=
| reachable_initial : reachable initial_world
| reachable_step w i : reachable w -> reachable (dispatch i w).1.

End WithEnvironment.

(** The state after a sequence of incoming messages. *)
Definition run_all (env : environment) (inputs : list incoming) (w : world) : world :=
  foldl (fun w i => (dispatch env i w).1) w inputs.

(** *** Views of a stream used to state what a stage returns *)

(** The events a stream yields before it ends or raises. *)
Fixpoint events_of (s : stream) : list Event :=
  match s with
  | Exhausted | Raises _ => []
  | Yield event rest => event :: events_of rest
  end.

(** The text fragments of an event, in order. *)
Definition fragments (event : Event) : list (option pystr) :=
  match content event with
  | Some c => text <$> or_empty (parts c)
  | None => []
  end.

(** The fragments of each final response event of a stream. *)
Definition final_fragments (s : stream) : list (list (option pystr)) :=
  fragments <$> filter (fun event => is_final_response event = true) (events_of s).

(** The spec's wording of a stage result, to compare with the loops of
    the source: "the concatenation, in order, of all text fragments
    contained in that stage's final response event", for a stream with one
    final response event whose fragments all carry text. *)
Definition final_response_concatenation (s : stream) : option pystr :=
  match final_fragments s with
  | [frags] =>
      match all_str frags with
      | inr texts => Some (concat texts)
      | inl _ => None
      end
  | _ => None
  end.

(** *** Assertions on the session data around a computation *)

(** From session data satisfying [P], the computation returns [a] with
    data satisfying [Q a], or raises with data satisfying [E]. *)
Definition triple {A} (P : user_data -> Prop) (c : M A)
    (Q : A -> user_data -> Prop) (E : user_data -> Prop) : Prop :=
  forall w, P (user w) ->
    match c w with
    | (w', inr a) => Q a (user w')
    | (w', inl _) => E (user w')
    end.

(** A computation that leaves the session data and the delivered
    messages alone and only adds requests to the service. *)
Definition only_requests {A} (c : M A) : Prop :=
  forall w, user (c w).1 = user w /\ outbox (c w).1 = outbox w /\
            exists more, requests (c w).1 = requests w ++ more.

(** A computation that leaves the session data alone. *)
Definition keeps_user {A} (c : M A) : Prop := forall w, user (c w).1 = user w.

(** What ties [report] to the stage: in the two e-mail stages a report is
    stored. *)
Definition report_invariant (d : user_data) : Prop :=
  stage d = Some EMAIL_DECISION \/ stage d = Some EMAIL_ADDR -> is_Some (report d).

(** How a stream ends: exhausted ([None]) or raising. *)
Fixpoint stream_end (s : stream) : option exn :=
  match s with
  | Exhausted => None
  | Raises e => Some e
  | Yield _ rest => stream_end rest
  end.

(** The runner a request is addressed to. *)
Definition request_runner (rq : request) : option runner :=
  match rq with
  | RunAsync r _ _ _ => Some r
  | CreateSession _ _ => None
  end.

(** The stage [handle_text] reads: a missing key counts as
    [WAITING_QUERY]. *)
Definition current_stage (d : user_data) : Stage := default WAITING_QUERY (stage d).

(** The moves of the stage found in [handle_text]. *)
Definition transitions : list (Stage * Stage) :=
  [ (WAITING_QUERY, ASKING); (ASKING, EMAIL_DECISION);
    (EMAIL_DECISION, EMAIL_ADDR); (EMAIL_DECISION, WAITING_QUERY);
    (EMAIL_ADDR, WAITING_QUERY) ].

(** From stage [s0], the session data are at [s0] still or one move
    away. *)
Definition moved (s0 : Stage) (d : user_data) : Prop :=
  current_stage d = s0 \/ (s0, current_stage d) ∈ transitions.

(** The fields of a conversation under way: all four are stored, the
    cursor is within the questions, and there is at most one answer per
    question asked. *)
Definition conversation_fields (d : user_data) : Prop :=
  exists i qs ans q,
    q_idx d = Some i /\ questions d = Some qs /\ answers d = Some ans /\
    query d = Some q /\ 0 <= i <= len qs /\ len ans <= i.

Definition session_invariant (d : user_data) : Prop :=
  stage d = Some ASKING \/ stage d = Some EMAIL_DECISION \/ stage d = Some EMAIL_ADDR ->
  conversation_fields d.

(** The transport delivers every message. *)
Definition reliable_transport (env : environment) : Prop :=
  forall h m, deliver env h m = None.

(** *** A concrete environment for running the handlers *)

(** [str.lower] on ASCII text. *)
Definition ascii_lower (s : pystr) : pystr :=
  (fun c => if (65 <=? c) && (c <=? 90) then c + 32 else c)%N <$> s.

(** [escape_markdown(text, version=2)]: a backslash before each of
    \ _ * [ ] ( ) ~ ` > # + - = | { } . ! *)
Definition markdown_v2_specials : list char :=
  [92; 95; 42; 91; 93; 40; 41; 126; 96; 62; 35; 43; 45; 61; 124; 123; 125; 46; 33]%N.

Definition escape_markdown_v2 (s : pystr) : pystr :=
  s ≫= (fun c => if bool_decide (c ∈ markdown_v2_specials) then [92%N; c] else [c]).

End Bot.

(** ** Concrete scenarios *)

Module Scenario.

Import WebSearch.

(** Tavily is unreachable, SERP answers with one organic result. *)
Definition tavily_down : providers :=
  {| client_search := fun _ => inl ProviderError;
     client_extract := fun _ => inl ProviderError;
     get_dict := fun _ =>
       inr {| organic_results :=
                Some [ {| og_link := Some (u "https://b.example/1");
                          og_title := Some (u "B1");
                          og_snippet := Some (u "snippet") |} ] |} |}.

Definition serp_row : source :=
  {| url := u "https://b.example/1"; title := u "B1"; content := Some (u "snippet") |}.

(** Both providers answer, with no result at all. *)
Definition both_empty : providers :=
  {| client_search := fun _ => inr {| tv_results := Some [] |};
     client_extract := fun _ => inl ProviderError;
     get_dict := fun _ => inr {| organic_results := None |} |}.

(** Tavily finds two pages and fails to extract the second; SERP returns
    the first of them again. *)
Definition two_pages : providers :=
  {| client_search := fun _ =>
       inr {| tv_results :=
                Some [ {| tr_url := Some (u "https://a.example/1"); tr_title := Some (u "A1") |};
                       {| tr_url := Some (u "https://a.example/2"); tr_title := Some (u "A2") |} ] |};
     client_extract := fun _ =>
       inr {| ex_results :=
                Some [ {| ex_url := Some (u "https://a.example/1");
                          ex_raw_content := Some (u "page one") |} ];
              ex_failed_results := Some [ {| fl_url := Some (u "https://a.example/2") |} ] |};
     get_dict := fun _ =>
       inr {| organic_results :=
                Some [ {| og_link := Some (u "https://a.example/1");
                          og_title := Some (u "A1");
                          og_snippet := Some (u "snippet") |} ] |} |}.

(** Tavily returns two results without url. *)
Definition no_urls : providers :=
  {| client_search := fun _ =>
       inr {| tv_results :=
                Some [ {| tr_url := None; tr_title := Some (u "A1") |};
                       {| tr_url := Some []; tr_title := None |} ] |};
     client_extract := fun _ => inl ProviderError;
     get_dict := fun _ => inr {| organic_results := Some [] |} |}.

Import Bot.

Definition final_event (texts : list pystr) : Event :=
  {| is_final_response := true;
     content := Some {| parts := Some ((fun t => {| text := Some t |}) <$> texts) |} |}.

Definition partial_event (t : pystr) : Event :=
  {| is_final_response := false;
     content := Some {| parts := Some [ {| text := Some t |} ] |} |}.

(** A service that answers every runner with one final event, given what
    the clarify and refine runners yield. *)
Definition service (clarify_text : pystr) (refine : stream)
    (h : list request) (r : runner) (user_id session_id : pystr)
    (new_message : option pystr) : stream :=
  match r with
  | clarify_runner => Yield (final_event [clarify_text]) Exhausted
  | refine_runner => refine
  | planner_runner => Yield (final_event [u "plan"]) Exhausted
  | search_runner => Yield (final_event [u "finding one"; u "finding two"]) Exhausted
  | writer_runner => Yield (final_event [u "Report body"]) Exhausted
  | email_runner => Yield (final_event [u "ok"]) Exhausted
  end.

Definition environment_with (clarify_text : pystr) (refine : stream) : environment :=
  {| run_async := service clarify_text refine;
     create_session := fun _ _ _ => None;
     deliver := fun _ _ => None;
     lower := ascii_lower;
     escape_markdown := escape_markdown_v2 |}.

Definition three_questions : pystr :=
  u "Here are my questions:" ++ nl ++ u "Which field?" ++ nl ++ nl ++
  u " Which period? " ++ nl ++ u "How deep?".

(** Refine answers with a partial event, then a final event of two
    fragments. *)
Definition refine_two_fragments : stream :=
  Yield (partial_event (u "thinking"))
    (Yield (final_event [u "refined"; u " query"]) Exhausted).

Definition scripted : environment := environment_with three_questions refine_two_fragments.

(** The Reasoning Service fails in the refine stage. *)
Definition refine_fails : environment := environment_with three_questions (Raises ServiceError).

(** The clarify answer has a preamble and nothing else, or one question. *)
Definition no_question : environment :=
  environment_with (u "Here are my questions:") refine_two_fragments.
Definition one_question : environment :=
  environment_with (u "Here are my questions:" ++ nl ++ u "Which field?") refine_two_fragments.

(** The email runner fails. *)
Definition email_down : environment :=
  {| run_async := fun h r user_id session_id new_message =>
       match r with
       | email_runner => Raises ServiceError
       | _ => service three_questions refine_two_fragments h r user_id session_id new_message
       end;
     create_session := fun _ _ _ => None;
     deliver := fun _ _ => None;
     lower := ascii_lower;
     escape_markdown := escape_markdown_v2 |}.

(** The writer runner ends without a final response. *)
Definition writer_silent : environment :=
  {| run_async := fun h r user_id session_id new_message =>
       match r with
       | writer_runner => Yield (partial_event (u "draft")) Exhausted
       | _ => service three_questions refine_two_fragments h r user_id session_id new_message
       end;
     create_session := fun _ _ _ => None;
     deliver := fun _ _ => None;
     lower := ascii_lower;
     escape_markdown := escape_markdown_v2 |}.

(** The refine runner ends without a final response. *)
Definition refine_silent : environment :=
  environment_with three_questions (Yield (partial_event (u "thinking")) Exhausted).

(** The clarify answer repeats a question. *)
Definition repeated_question : environment :=
  environment_with
    (u "Here are my questions:" ++ nl ++ u "Which field?" ++ nl ++ u "Which field?" ++
     nl ++ u "How deep?")
    refine_two_fragments.

Definition says (uid : Z) (t : pystr) : incoming :=
  text_message {| effective_user_id := uid; message_text := t |}.

(** A whole conversation up to the third answer. *)
Definition three_answers : list incoming :=
  [ command_start; says 42 (u "What is quantum computing?");
    says 42 (u "physics"); says 42 (u "since 2020"); says 42 (u "overview") ].

End Scenario.

(** * Properties *)

(** ** [str.splitlines(keepends=True)] *)

Example splitlines_crlf :
  splitlines_keepends (u "ab" ++ [13; 10; 13; 8232]%N ++ u "c")
  = [u "ab" ++ [13; 10]%N; [13%N]; [8232%N]; u "c"].
Proof. reflexivity. Qed.

Example split_message_small :
  _split_message (u "ab" ++ [10%N] ++ u "cd" ++ [10%N] ++ u "e") 6
  = [u "ab" ++ [10%N] ++ u "cd" ++ [10%N]; u "e"].
Proof. reflexivity. Qed.

Example strip_whitespace :
  strip ([32; 9]%N ++ u "a b" ++ [10; 160; 8232]%N) = u "a b".
Proof. reflexivity. Qed.

Example split_nl_fields :
  split_nl (u "a" ++ [10; 10]%N ++ u "b" ++ [10]%N) = [u "a"; []; u "b"; []].
Proof. reflexivity. Qed.

Example str_of_int_decimal :
  str_of_int 42 = u "42" ∧ str_of_int 0 = u "0" ∧ str_of_int (-7) = u "-7".
Proof. by split_and!. Qed.

Example dict_set_keeps_position :
  dict_set [(u "a", u "1"); (u "b", u "2")] (u "a") (u "3")
  = [(u "a", u "3"); (u "b", u "2")] ∧
  dict_set [(u "a", u "1")] (u "b") (u "2") = [(u "a", u "1"); (u "b", u "2")].
Proof. by split_and!. Qed.

Example index_negative :
  index [u "a"; u "b"] (-1) = inr (u "b") ∧ index [u "a"; u "b"] 2 = inl IndexError.
Proof. by split_and!. Qed.

Section Splitlines.

Lemma split_nl_from_nonempty (s : pystr) : ∀ cur, split_nl_from cur s ≠ [].
Proof.
  induction s as [|c s IH]; intros cur; cbn [split_nl_from]; [done|].
  destruct (c =? 10)%N; [done | apply IH].
Qed.

Lemma split_nl_from_join (s : pystr) :
  ∀ cur, join [10%N] (split_nl_from cur s) = cur ++ s.
Proof.
  induction s as [|c s IH]; intros cur; cbn [split_nl_from].
  - by rewrite app_nil_r.
  - destruct (N.eqb_spec c 10) as [->|Hc].
    + specialize (IH []). pose proof (split_nl_from_nonempty s []) as Hne.
      destruct (split_nl_from [] s) as [|x xs]; [done|].
      change (join [10%N] (cur :: x :: xs))
        with (cur ++ [10%N] ++ join [10%N] (x :: xs)).
      by rewrite IH.
    + by rewrite IH, <- app_assoc.
Qed.

(** Joining the fields of [split("\n")] with newlines gives the text
    back. *)
Lemma split_nl_join (s : pystr) : join [10%N] (split_nl s) = s.
Proof. apply split_nl_from_join. Qed.


Lemma splitlines_from_end (cur : pystr) :
  concat (splitlines_from cur []) = cur ++ [] ∧
  Forall (λ l, l ≠ []) (splitlines_from cur []).
Proof.
  destruct cur as [|c cur]; simpl.
  - split; [done | constructor].
  - split; [done | by repeat constructor].
Qed.

Lemma splitlines_from_bounded (n : nat) :
  ∀ s cur, (length s ≤ n)%nat →
    concat (splitlines_from cur s) = cur ++ s ∧
    Forall (λ l, l ≠ []) (splitlines_from cur s).
Proof.
  induction n as [|n IH]; intros s cur Hn.
  { destruct s; [apply splitlines_from_end | simpl in Hn; lia]. }
  destruct s as [|c rest]; [apply splitlines_from_end|].
  simpl in Hn. simpl. destruct (is_linebreak c).
  - destruct rest as [|c' rest'].
    { simpl. split; [by rewrite app_nil_r|].
      repeat constructor. by destruct cur. }
    destruct ((c =? 13)%N && (c' =? 10)%N).
    + destruct (IH rest' [] ltac:(simpl in Hn; lia)) as [Hc Hne].
      simpl. rewrite Hc. split.
      * by rewrite <- app_assoc.
      * constructor; [by destruct cur | done].
    + destruct (IH (c' :: rest') [] ltac:(simpl in *; lia)) as [Hc Hne].
      cbn [concat]. rewrite Hc. split.
      * by rewrite <- app_assoc.
      * constructor; [by destruct cur | done].
  - destruct (IH rest (cur ++ [c]) ltac:(lia)) as [Hc Hne].
    split; [by rewrite Hc, <- app_assoc | done].
Qed.

Lemma splitlines_from_lines (n : nat) :
  ∀ s cur, (length s ≤ n)%nat →
    Forall (λ c, is_linebreak c = false) cur →
    Forall is_line (splitlines_from cur s).
Proof.
  induction n as [|n IH]; intros s cur Hn Hcur.
  { destruct s; [|simpl in Hn; lia]. destruct cur as [|c cur]; [constructor|].
    repeat constructor. exists (c :: cur), []. rewrite app_nil_r. auto. }
  destruct s as [|c rest].
  { destruct cur as [|c cur]; [constructor|].
    repeat constructor. exists (c :: cur), []. rewrite app_nil_r. auto. }
  simpl in Hn. cbn [splitlines_from]. destruct (is_linebreak c) eqn:Hc.
  - destruct rest as [|c' rest'].
    { repeat constructor. exists cur, [c].
      split_and!; [done | done | right; right; by exists c]. }
    destruct ((c =? 13)%N && (c' =? 10)%N) eqn:Hcrlf.
    + apply andb_true_iff in Hcrlf as [->%N.eqb_eq ->%N.eqb_eq].
      constructor; [exists cur, [13; 10]%N; by auto|].
      apply IH; [simpl in Hn; lia | constructor].
    + constructor.
      { exists cur, [c]. split_and!; [done | done | right; right; by exists c]. }
      apply IH; [simpl in *; lia | constructor].
  - apply IH; [lia|]. apply Forall_app. split; [done | by repeat constructor].
Qed.

(** Every element is a line. *)
Lemma splitlines_keepends_lines (s : pystr) :
  Forall is_line (splitlines_keepends s).
Proof. by apply (splitlines_from_lines (length s)). Qed.

(** Joining the lines gives the text back. *)
Lemma splitlines_keepends_concat (s : pystr) :
  concat (splitlines_keepends s) = s.
Proof.
  unfold splitlines_keepends.
  by destruct (splitlines_from_bounded (length s) s [] ltac:(lia)) as [-> _].
Qed.

(** No line is empty. *)
Lemma splitlines_keepends_nonempty (s : pystr) :
  Forall (λ l, l ≠ []) (splitlines_keepends s).
Proof.
  unfold splitlines_keepends.
  by destruct (splitlines_from_bounded (length s) s [] ltac:(lia)) as [_ ?].
Qed.

End Splitlines.

(** ** [_split_message] *)

Section SplitMessage.

Variable limit : Z.

Local Abbreviation chunk_ok := (chunk_ok limit).

Lemma len_app {A} (a b : list A) : len (a ++ b) = len a + len b.
Proof. unfold len. rewrite length_app. lia. Qed.

Lemma split_loop_groups (lines : list pystr) :
  ∀ (gout : list (list pystr)) (gbuf : list pystr),
    Forall chunk_ok gout → chunk_ok gbuf →
    ∃ (gout' : list (list pystr)) (gbuf' : list pystr),
      split_loop limit lines (@concat char <$> gout) (concat gbuf)
        = (@concat char <$> gout', concat gbuf') ∧
      concat gout' ++ gbuf' = concat gout ++ gbuf ++ lines ∧
      Forall chunk_ok gout' ∧ chunk_ok gbuf'.
Proof.
  induction lines as [|line lines IH]; intros gout gbuf Hout Hbuf.
  - exists gout, gbuf. simpl. by rewrite app_nil_r.
  - simpl. destruct (Z.gtb_spec (len (concat gbuf) + len line) limit) as [Hgt|Hle].
    + destruct (IH (gout ++ [gbuf]) [line]) as (gout' & gbuf' & Heq & Hcat & ? & ?).
      * apply Forall_app. split; [done | by constructor].
      * destruct (Z.le_gt_cases (len line) limit).
        -- left. simpl. by rewrite app_nil_r.
        -- right. by exists line.
      * exists gout', gbuf'. split_and!; try done.
        -- rewrite <- Heq. f_equal.
           ++ by rewrite fmap_app.
           ++ simpl. by rewrite app_nil_r.
        -- rewrite Hcat, concat_app. simpl. by rewrite app_nil_r, <- app_assoc.
    + destruct (IH gout (gbuf ++ [line])) as (gout' & gbuf' & Heq & Hcat & ? & ?).
      * done.
      * left. rewrite concat_app, len_app. simpl. by rewrite app_nil_r.
      * exists gout', gbuf'. split_and!; try done.
        -- rewrite <- Heq. f_equal. rewrite concat_app. simpl. by rewrite app_nil_r.
        -- rewrite Hcat. by rewrite <- !app_assoc.
Qed.

Lemma concat_nil_nonempty (g : list pystr) :
  Forall (λ l, l ≠ []) g → concat g = [] → g = [].
Proof.
  destruct g as [|l g]; [done|].
  intros Hne Hc. inversion Hne; subst. simpl in Hc.
  by destruct l.
Qed.

(** The chunks are groups of consecutive whole lines of the input. *)
Lemma split_message_groups (md : pystr) :
  0 <= limit →
  ∃ groups : list (list pystr),
    concat groups = splitlines_keepends md ∧
    _split_message md limit = @concat char <$> groups ∧
    Forall chunk_ok groups.
Proof.
  intros Hlim.
  destruct (split_loop_groups (splitlines_keepends md) [] [])
    as (gout & gbuf & Heq & Hcat & Hout & Hbuf).
  { constructor. }
  { left. simpl. unfold len. simpl. lia. }
  cbn [fmap list_fmap concat app] in Heq, Hcat.
  unfold _split_message. cbv zeta. rewrite Heq.
  destruct (concat gbuf) as [|c buf] eqn:Hb.
  - exists gout. split_and!; try done.
    assert (gbuf = []) as ->.
    { apply concat_nil_nonempty; [|done].
      pose proof (splitlines_keepends_nonempty md) as Hne.
      rewrite <- Hcat in Hne. by apply Forall_app in Hne as [_ ?]. }
    by rewrite app_nil_r in Hcat.
  - exists (gout ++ [gbuf]). split_and!.
    + rewrite concat_app. simpl. by rewrite app_nil_r.
    + rewrite fmap_app. simpl. by rewrite Hb.
    + apply Forall_app. split; [done | by constructor].
Qed.

Lemma split_loop_out_prefix (lines : list pystr) :
  ∀ out buf, ∃ more, (split_loop limit lines out buf).1 = out ++ more.
Proof.
  induction lines as [|line lines IH]; intros out buf; simpl.
  - exists []. by rewrite app_nil_r.
  - destruct (len buf + len line >? limit).
    + destruct (IH (out ++ [buf]) line) as [more ->].
      exists (buf :: more). by rewrite <- app_assoc.
    + apply IH.
Qed.

End SplitMessage.

(** C3. For every text and positive limit: the chunks of
    [_split_message] concatenate to the text; they are groups of
    consecutive whole lines of the text (the lines of
    [splitlines(keepends=True)], each ending where a line of the input
    ends), so a chunk boundary is a line boundary of the input; and every
    chunk has length at most the limit unless it is one single line longer
    than the limit. *)
Theorem split_message_chunks (md : pystr) (limit : Z) :
  0 < limit →
  concat (_split_message md limit) = md ∧
  ∃ groups : list (list pystr),
    concat groups = splitlines_keepends md ∧
    Forall is_line (concat groups) ∧
    concat (concat groups) = md ∧
    _split_message md limit = @concat char <$> groups ∧
    Forall (λ g, len (concat g) <= limit ∨
                 ∃ line, g = [line] ∧ limit < len line) groups.
Proof.
  intros Hlim.
  destruct (split_message_groups limit md ltac:(lia)) as (groups & Hcat & Heq & Hok).
  split.
  - transitivity (concat (splitlines_keepends md));
      [| apply splitlines_keepends_concat].
    rewrite Heq, <- Hcat. clear. induction groups as [|g groups IH]; [done|].
    rewrite fmap_cons. cbn [concat]. by rewrite concat_app, IH.
  - exists groups. split_and!; try done.
    + rewrite Hcat. apply splitlines_keepends_lines.
    + rewrite Hcat. apply splitlines_keepends_concat.
Qed.

Lemma split_message_chunks_witness :
  0 < 6 ∧
  concat (_split_message (u "ab" ++ [10%N] ++ u "cd" ++ [10%N] ++ u "e") 6)
  = u "ab" ++ [10%N] ++ u "cd" ++ [10%N] ++ u "e".
Proof.
  split; [lia|].
  apply (split_message_chunks (u "ab" ++ [10%N] ++ u "cd" ++ [10%N] ++ u "e") 6). lia.
Defined.

(** C10. When the first line of the text is longer than the limit,
    [_split_message] emits the empty string as its first chunk and the
    oversized line as the second; so some inputs give a sequence with an
    empty chunk. *)
Theorem split_message_empty_first_chunk (md : pystr) (limit : Z) (line : pystr) (rest : list pystr) :
  splitlines_keepends md = line :: rest →
  limit < len line →
  ∃ tl, _split_message md limit = [] :: line :: tl.
Proof.
  intros Hlines Hlong.
  assert (line ≠ []) as Hne.
  { pose proof (splitlines_keepends_nonempty md) as H.
    rewrite Hlines in H. by inversion H. }
  unfold _split_message. cbv zeta. rewrite Hlines.
  cbn [split_loop]. replace (len [] + len line >? limit) with true
    by (symmetry; apply Z.gtb_lt; unfold len at 1; simpl; lia).
  cbn [app]. destruct rest as [|line2 rest].
  - cbn [split_loop]. exists []. by destruct line.
  - cbn [split_loop]. replace (len line + len line2 >? limit) with true
      by (symmetry; apply Z.gtb_lt; unfold len in *; lia).
    destruct (split_loop_out_prefix limit rest [[]; line] ([] ++ line2)) as [more Hmore].
    cbn [app] in *.
    destruct (split_loop limit rest [[]; line] line2) as [out buf].
    simpl in Hmore. subst out.
    destruct buf; [by exists more | by exists (more ++ [n :: buf])].
Qed.

Lemma split_message_empty_first_chunk_witness :
  ∃ tl, _split_message (u "abcdef" ++ [10%N] ++ u "gh") 3 = [] :: (u "abcdef" ++ [10%N]) :: tl.
Proof.
  apply (split_message_empty_first_chunk (u "abcdef" ++ [10%N] ++ u "gh") 3
           (u "abcdef" ++ [10%N]) [u "gh"]).
  - reflexivity.
  - unfold len. simpl. lia.
Defined.

Example split_message_oversized_first_line :
  _split_message (u "abcdef" ++ [10%N] ++ u "gh") 3 = [[]; u "abcdef" ++ [10%N]; u "gh"].
Proof. reflexivity. Qed.

(** ** Search aggregation *)

Section SearchAggregation.

Import WebSearch.

(** Filtering on the url commutes with any rewriting of the rows that
    keeps url and title. *)
Lemma filter_url_fmap (Q : pystr → Prop) `{∀ x, Decision (Q x)}
    (f : source → source) (l : list source) :
  (∀ s, url_title (f s) = url_title s) →
  url_title <$> filter (λ s, Q (url s)) (f <$> l)
  = url_title <$> filter (λ s, Q (url s)) l.
Proof.
  intros Hf. induction l as [|s l IH]; [done|].
  rewrite fmap_cons, !filter_cons.
  assert (url (f s) = url s) as Hu by (by injection (Hf s)).
  rewrite Hu. destruct (decide (Q (url s))).
  - by rewrite !fmap_cons, IH, Hf.
  - done.
Qed.

Lemma attach_url_title (e : extracted) (s : source) :
  url_title (if decide (Some (url s) = ex_url e)
             then set_content s (default [] (ex_raw_content e)) else s)
  = url_title s.
Proof. by destruct (decide _). Qed.

Lemma attach_all_filter (Q : pystr → Prop) `{∀ x, Decision (Q x)}
    (es : list extracted) :
  ∀ l, url_title <$> filter (λ s, Q (url s)) (attach_all es l)
       = url_title <$> filter (λ s, Q (url s)) l.
Proof.
  induction es as [|e es IH]; intros l; [done|].
  unfold attach_all in *. simpl. rewrite IH. unfold attach.
  apply filter_url_fmap. intros s. apply attach_url_title.
Qed.

Lemma filter_all {A} (Q : A → Prop) `{∀ x, Decision (Q x)} (l : list A) :
  (∀ x, Q x) → filter Q l = l.
Proof.
  intros HQ. induction l as [|x l IH]; [done|].
  by rewrite filter_cons_True, IH.
Qed.

Lemma attach_all_url_title (es : list extracted) (l : list source) :
  url_title <$> attach_all es l = url_title <$> l.
Proof.
  pose proof (attach_all_filter (λ _, True) es l) as H.
  by rewrite !(filter_all (λ _ : source, True)) in H.
Qed.

Lemma tavily_search_skip (P : providers) (query : pystr) (response : tavily_response) :
  client_search P query = inr response →
  urls_to_extract_of (sources_of response) = [] →
  tavily_search P query = inr (sources_of response).
Proof.
  intros Hs Hu. unfold tavily_search. rewrite Hs. simpl. by rewrite Hu.
Qed.

Lemma tavily_search_extract (P : providers) (query : pystr)
    (response : tavily_response) (er : extract_response) :
  client_search P query = inr response →
  urls_to_extract_of (sources_of response) ≠ [] →
  client_extract P (urls_to_extract_of (sources_of response)) = inr er →
  tavily_search P query
  = inr (filter (λ s, Some (url s) ∉ failed_urls_of er)
           (attach_all (or_empty (ex_results er)) (sources_of response))).
Proof.
  intros Hs Hu He. unfold tavily_search. rewrite Hs. simpl.
  destruct (urls_to_extract_of (sources_of response)) as [|x xs] eqn:E; [done|].
  rewrite He. simpl. f_equal. destruct (decide (failed_urls_of er = ∅)) as [Hf|Hf]; [|done].
  rewrite Hf. symmetry. apply filter_all. intros s. apply not_elem_of_empty.
Qed.

(** C1. When both providers answer: the rows of Tavily whose url is in
    the failed list of the extraction are removed, the others stay in
    their original order (with the extracted content attached), and the
    rows of SERP follow, all of them, unchanged and in their order, with
    no deduplication against Tavily's.  When Tavily returned no url to
    extract there is no extraction and no failed list, and all its rows
    are kept. *)
Theorem search_web_merge (P : providers) (query : pystr)
    (response : tavily_response) (B : list source) :
  client_search P query = inr response →
  serp_search P query = inr B →
  let A := sources_of response in
  (urls_to_extract_of A = [] → search_web P query = inr (A ++ B)) ∧
  (∀ er, urls_to_extract_of A ≠ [] →
         client_extract P (urls_to_extract_of A) = inr er →
     ∃ A', search_web P query = inr (A' ++ B) ∧
           A' = filter (λ s, Some (url s) ∉ failed_urls_of er)
                  (attach_all (or_empty (ex_results er)) A) ∧
           (∀ s, s ∈ A' → Some (url s) ∉ failed_urls_of er) ∧
           url_title <$> A'
           = url_title <$> filter (λ s, Some (url s) ∉ failed_urls_of er) A).
Proof.
  intros Hs Hb A. split.
  - intros Hu. unfold search_web.
    rewrite (tavily_search_skip P query response Hs Hu). simpl. by rewrite Hb.
  - intros er Hu He. eexists. split_and!.
    + unfold search_web.
      rewrite (tavily_search_extract P query response er Hs Hu He). simpl.
      by rewrite Hb.
    + done.
    + intros s Hin. by apply list_elem_of_filter in Hin as [? _].
    + exact (attach_all_filter (λ x, Some x ∉ failed_urls_of er)
               (or_empty (ex_results er)) A).
Qed.

Lemma search_web_merge_witness :
  search_web Scenario.two_pages (u "topic")
  = inr [ {| url := u "https://a.example/1"; title := u "A1";
             content := Some (u "page one") |};
          {| url := u "https://a.example/1"; title := u "A1";
             content := Some (u "snippet") |} ].
Proof.
  destruct (search_web_merge Scenario.two_pages (u "topic") _ _ eq_refl eq_refl)
    as [_ Hextract].
  destruct (Hextract _ ltac:(done) eq_refl) as (A' & -> & -> & _).
  vm_compute. reflexivity.
Defined.

(** The same url from both providers gives two rows. *)
Example search_web_no_deduplication :
  url <$> default [] (match search_web Scenario.two_pages (u "topic") with
                      | inr rows => Some rows | inl _ => None end)
  = [u "https://a.example/1"; u "https://a.example/1"].
Proof. vm_compute. reflexivity. Qed.

(** With Tavily down and SERP answering, [search_web] raises: it does
    not return SERP's rows. *)
Lemma search_web_single_failure_raises :
  client_search Scenario.tavily_down (u "topic") = inl ProviderError ∧
  serp_search Scenario.tavily_down (u "topic") = inr [Scenario.serp_row] ∧
  search_web Scenario.tavily_down (u "topic") = inl ProviderError ∧
  search_web Scenario.tavily_down (u "topic") ≠ inr [Scenario.serp_row].
Proof. by split_and!. Qed.

(** C2, as the code has it.  [search_web] has no handler: it raises as
    soon as one provider call raises (Tavily's search, Tavily's
    extraction when there is one, or SERP), also when the other provider
    answers; when both providers answer with no result it returns the
    empty list. *)
Theorem search_web_failure_policy (P : providers) (query : pystr) :
  (∀ e, client_search P query = inl e → search_web P query = inl e) ∧
  (∀ e response, client_search P query = inr response →
       urls_to_extract_of (sources_of response) ≠ [] →
       client_extract P (urls_to_extract_of (sources_of response)) = inl e →
       search_web P query = inl e) ∧
  (∀ e a, tavily_search P query = inr a → get_dict P query = inl e →
       search_web P query = inl e) ∧
  (∀ response sr, client_search P query = inr response →
       or_empty (tv_results response) = [] →
       get_dict P query = inr sr → or_empty (organic_results sr) = [] →
       search_web P query = inr []).
Proof.
  split_and!.
  - intros e He. unfold search_web, tavily_search. by rewrite He.
  - intros e response Hs Hu He. unfold search_web, tavily_search.
    rewrite Hs. simpl.
    destruct (urls_to_extract_of (sources_of response)); [done|].
    by rewrite He.
  - intros e a Ha He. unfold search_web, serp_search. rewrite Ha, He. done.
  - intros response sr Hs Hr Hb Ho. unfold search_web.
    rewrite (tavily_search_skip P query response Hs).
    + unfold serp_search, sources_of. rewrite Hb. cbn [ebind]. by rewrite Hr, Ho.
    + unfold sources_of. by rewrite Hr.
Qed.

Lemma search_web_failure_policy_witness :
  search_web Scenario.both_empty (u "topic") = inr [] ∧
  search_web Scenario.tavily_down (u "topic") = inl ProviderError.
Proof.
  destruct (search_web_failure_policy Scenario.both_empty (u "topic"))
    as (_ & _ & _ & Hempty).
  destruct (search_web_failure_policy Scenario.tavily_down (u "topic"))
    as (Hdown & _).
  split.
  - exact (Hempty _ _ eq_refl eq_refl eq_refl eq_refl).
  - exact (Hdown _ eq_refl).
Defined.

End SearchAggregation.

(** ** The loops over a stage's events *)

Section StageLoops.

Import Bot.

Lemma final_fragments_yield (event : Event) (rest : stream) :
  final_fragments (Yield event rest)
  = if is_final_response event
    then fragments event :: final_fragments rest
    else final_fragments rest.
Proof.
  unfold final_fragments. cbn [events_of]. rewrite filter_cons.
  destruct (is_final_response event); by case_decide.
Qed.

(** refine returns the first fragment of the first final event that has
    fragments. *)
Lemma refine_loop_first_fragment (s : stream) (v : option pystr) :
  refine_loop s = inr (Some v) →
  ∃ more, head (filter (λ f, f ≠ []) (final_fragments s)) = Some (v :: more).
Proof.
  induction s as [| e | event rest IH]; [done | done |].
  cbn [refine_loop]. rewrite final_fragments_yield.
  destruct (is_final_response event); [|done].
  unfold fragments. destruct (content event) as [c|]; [|done].
  destruct (parts c) as [[|p ps]|]; cbn [or_empty default fmap list_fmap];
    rewrite filter_cons; case_decide; try done; auto.
  intros [= <-]. by exists (text <$> ps).
Qed.

(** So does planner. *)
Lemma planner_loop_first_fragment (s : stream) (v : option pystr) :
  planner_loop s = inr (Some v) →
  ∃ more, head (filter (λ f, f ≠ []) (final_fragments s)) = Some (v :: more).
Proof.
  induction s as [| e | event rest IH]; [done | done |].
  cbn [planner_loop]. rewrite final_fragments_yield.
  destruct (is_final_response event); [|done].
  unfold fragments. destruct (content event) as [c|].
  - destruct (parts c) as [[|p ps]|]; cbn [or_empty default fmap list_fmap];
      [done| |done].
    intros [= <-]. exists (text <$> ps). rewrite filter_cons. by case_decide.
  - intros H. rewrite filter_cons. case_decide; [done | auto].
Qed.

(** search and writer collect every fragment of every final event. *)
Lemma collect_loop_all_fragments (s : stream) :
  ∀ acc frags, collect_loop s acc = inr frags →
               frags = acc ++ concat (final_fragments s).
Proof.
  induction s as [| e | event rest IH]; intros acc frags.
  - intros [= <-]. simpl. by rewrite app_nil_r.
  - done.
  - cbn [collect_loop]. rewrite final_fragments_yield.
    destruct (is_final_response event); [|apply IH].
    unfold fragments. destruct (content event) as [c|]; [|apply IH].
    destruct (parts c) as [ps|]; [|done].
    intros H. apply IH in H. by rewrite H, <- app_assoc.
Qed.

Lemma all_str_some (xs : list (option pystr)) (ys : list pystr) :
  all_str xs = inr ys ↔ xs = Some <$> ys.
Proof.
  revert ys. induction xs as [|[x|] xs IH]; intros ys; simpl.
  - split; [by intros [= <-] | by destruct ys].
  - destruct (all_str xs) as [e|r] eqn:E; simpl.
    + split; [done|]. destruct ys as [|y ys]; [done|].
      intros [= -> Hxs]. by apply IH in Hxs.
    + split.
      * intros [= <-]. rewrite fmap_cons. f_equal. by apply IH.
      * destruct ys as [|y ys]; [done|]. intros [= -> Hxs].
        apply IH in Hxs. by injection Hxs as ->.
  - split; [done | by destruct ys].
Qed.

Lemma join_lines_some (xs : list (option pystr)) (t : pystr) :
  join_lines xs = inr t → ∃ texts, xs = Some <$> texts ∧ t = join nl texts.
Proof.
  unfold join_lines. destruct (all_str xs) as [e|ys] eqn:E; [done|].
  intros [= <-]. exists ys. split; [by apply all_str_some | done].
Qed.

End StageLoops.

(** ** The monad of the handlers *)

Section MonadSteps.

Import Bot.

Lemma bind_inr {A B} (c : M A) (k : A → M B) (w w' : world) (b : B) :
  bind c k w = (w', inr b) →
  ∃ w1 a, c w = (w1, inr a) ∧ k a w1 = (w', inr b).
Proof.
  unfold bind. destruct (c w) as [w1 [e|a]]; [done|]. intros H. by exists w1, a.
Qed.

Lemma bind_step {A B} (c : M A) (k : A → M B) (w w1 : world) (a : A) :
  c w = (w1, inr a) → bind c k w = k a w1.
Proof. unfold bind. by intros ->. Qed.

Lemma bind_raise {A B} (c : M A) (k : A → M B) (w w1 : world) (e : exn) :
  c w = (w1, inl e) → bind c k w = (w1, inl e).
Proof. unfold bind. by intros ->. Qed.

Lemma lift_inr {A} (r : exn + A) (w w' : world) (a : A) :
  lift r w = (w', inr a) → w' = w ∧ r = inr a.
Proof. unfold lift. by intros [= -> ->]. Qed.

Lemma bound_inr {A} (x : option A) (w w' : world) (a : A) :
  bound x w = (w', inr a) → w' = w ∧ x = Some a.
Proof. destruct x; unfold bound, ret, raise; [by intros [= -> ->] | done]. Qed.

End MonadSteps.

(** ** [create_report_pipline] *)

Section ReportPipeline.

Import Bot.

Variable env : environment.

(** A run that returns went through the four loops, each on the answer
    of the service to the request built from the previous result. *)
Lemma create_report_pipline_returns (user_id query : pystr) (answers : dict pystr)
    (w w' : world) (report : pystr) :
  create_report_pipline env user_id query answers w = (w', inr report) →
  let sid := u "tg_" ++ user_id in
  ∃ refined_query search_plan frags3 search_results frags4,
    let r1 := RunAsync refine_runner user_id sid (Some (combined_query_of query answers)) in
    let r2 := RunAsync planner_runner user_id sid refined_query in
    let r3 := RunAsync search_runner user_id sid search_plan in
    let r4 := RunAsync writer_runner user_id sid (Some search_results) in
    refine_loop (run_async env (requests w) refine_runner user_id sid
                   (Some (combined_query_of query answers)))
      = inr (Some refined_query) ∧
    planner_loop (run_async env (requests w ++ [r1]) planner_runner user_id sid
                    refined_query)
      = inr (Some search_plan) ∧
    collect_loop (run_async env (requests w ++ [r1; r2]) search_runner user_id sid
                    search_plan) [] = inr frags3 ∧
    join_lines frags3 = inr search_results ∧
    collect_loop (run_async env (requests w ++ [r1; r2; r3]) writer_runner user_id sid
                    (Some search_results)) [] = inr frags4 ∧
    join_lines frags4 = inr report ∧
    w' = {| user := user w; requests := requests w ++ [r1; r2; r3; r4];
            outbox := outbox w |}.
Proof.
  unfold create_report_pipline. cbv zeta. intros H.
  apply bind_inr in H as (w1 & s1 & [= <- <-] & H).
  apply bind_inr in H as (? & o1 & [-> E1]%lift_inr & H).
  apply bind_inr in H as (? & refined_query & [-> ->]%bound_inr & H).
  apply bind_inr in H as (w2 & s2 & [= <- <-] & H).
  apply bind_inr in H as (? & o2 & [-> E2]%lift_inr & H).
  apply bind_inr in H as (? & search_plan & [-> ->]%bound_inr & H).
  apply bind_inr in H as (w3 & s3 & [= <- <-] & H).
  apply bind_inr in H as (? & frags3 & [-> E3]%lift_inr & H).
  apply bind_inr in H as (? & search_results & [-> J3]%lift_inr & H).
  apply bind_inr in H as (w4 & s4 & [= <- <-] & H).
  apply bind_inr in H as (? & frags4 & [-> E4]%lift_inr & H).
  apply bind_inr in H as (? & r & [-> J4]%lift_inr & H).
  injection H as <- <-.
  rewrite <- ?app_assoc in *. cbn [app] in *.
  exists refined_query, search_plan, frags3, search_results, frags4.
  split_and!; try done.
  unfold add_request. cbn [user requests outbox].
  by rewrite <- !app_assoc.
Qed.

(** C4, as the code has it.  A run that returns made four requests, in
    the order refine, planner, search, writer, all under the user's id and
    the session id "tg_" + user id.  The refine request carries
    "User query: " + query + two newlines + the pairs "question->answer",
    one per line in the order of the dict; each later request carries the
    result of the stage before it, and the report is the result of the
    writer stage.  The result of refine and of planner is the first
    fragment of the first final response event that has fragments; the
    result of search and of writer is all the fragments of all final
    response events, joined with newlines. *)
Theorem create_report_pipline_stages (user_id query : pystr) (answers : dict pystr)
    (w w' : world) (report : pystr) :
  create_report_pipline env user_id query answers w = (w', inr report) →
  let sid := u "tg_" ++ user_id in
  let combined_query :=
    u "User query: " ++ query ++ nl ++ nl ++
    join nl ((λ qa, qa.1 ++ u "->" ++ qa.2) <$> answers) in
  ∃ refined_query search_plan search_results,
    let r1 := RunAsync refine_runner user_id sid (Some combined_query) in
    let r2 := RunAsync planner_runner user_id sid refined_query in
    let r3 := RunAsync search_runner user_id sid search_plan in
    let r4 := RunAsync writer_runner user_id sid (Some search_results) in
    requests w' = requests w ++ [r1; r2; r3; r4] ∧
    user w' = user w ∧ outbox w' = outbox w ∧
    (∃ more,
       head (filter (λ f, f ≠ [])
               (final_fragments
                  (run_async env (requests w) refine_runner user_id sid
                     (Some combined_query))))
       = Some (refined_query :: more)) ∧
    (∃ more,
       head (filter (λ f, f ≠ [])
               (final_fragments
                  (run_async env (requests w ++ [r1]) planner_runner user_id sid
                     refined_query)))
       = Some (search_plan :: more)) ∧
    (∃ texts,
       concat (final_fragments
                 (run_async env (requests w ++ [r1; r2]) search_runner user_id sid
                    search_plan))
       = Some <$> texts ∧ search_results = join nl texts) ∧
    (∃ texts,
       concat (final_fragments
                 (run_async env (requests w ++ [r1; r2; r3]) writer_runner user_id sid
                    (Some search_results)))
       = Some <$> texts ∧ report = join nl texts).
Proof.
  intros H sid combined_query.
  assert (combined_query = combined_query_of query answers) as Hq.
  { unfold combined_query, combined_query_of. by rewrite <- !app_assoc. }
  rewrite Hq. clear Hq combined_query.
  apply create_report_pipline_returns in H
    as (refined_query & search_plan & frags3 & search_results & frags4 &
        E1 & E2 & E3 & J3 & E4 & J4 & ->).
  exists refined_query, search_plan, search_results. cbv zeta.
  split_and!; try done.
  - by apply refine_loop_first_fragment.
  - by apply planner_loop_first_fragment.
  - apply collect_loop_all_fragments in E3. cbn [app] in E3. subst frags3.
    by apply join_lines_some.
  - apply collect_loop_all_fragments in E4. cbn [app] in E4. subst frags4.
    by apply join_lines_some.
Qed.

End ReportPipeline.

Section ReportPipelineRuns.

Import Bot Scenario.

Lemma create_report_pipline_stages_witness :
  ∃ w', create_report_pipline scripted (u "42") (u "topic")
          [(u "Which field?", u "physics")] initial_world
        = (w', inr (u "Report body")) ∧
        requests w'
        = [ RunAsync refine_runner (u "42") (u "tg_42")
              (Some (u "User query: topic" ++ nl ++ nl ++ u "Which field?->physics"));
            RunAsync planner_runner (u "42") (u "tg_42") (Some (u "refined"));
            RunAsync search_runner (u "42") (u "tg_42") (Some (u "plan"));
            RunAsync writer_runner (u "42") (u "tg_42")
              (Some (u "finding one" ++ nl ++ u "finding two")) ].
Proof.
  eexists. split; [reflexivity|].
  destruct (create_report_pipline_stages scripted (u "42") (u "topic")
              [(u "Which field?", u "physics")] initial_world _ _ eq_refl)
    as (rq & sp & sr & _).
  reflexivity.
Defined.

(** In the scripted run the final event of refine has the fragments
    "refined" and " query" and that of search has "finding one" and
    "finding two": planner is given the first fragment only, and writer is
    given the two fragments with a newline between them, neither being the
    concatenation of the fragments. *)
Lemma stage_result_is_not_the_concatenation :
  ∃ w', create_report_pipline scripted (u "42") (u "topic") [] initial_world
        = (w', inr (u "Report body")) ∧
    final_response_concatenation
      (run_async scripted [] refine_runner (u "42") (u "tg_42")
         (Some (combined_query_of (u "topic") [])))
    = Some (u "refined query") ∧
    requests w' !! 1%nat
    = Some (RunAsync planner_runner (u "42") (u "tg_42") (Some (u "refined"))) ∧
    u "refined" ≠ u "refined query" ∧
    final_response_concatenation
      (run_async scripted [] search_runner (u "42") (u "tg_42") (Some (u "plan")))
    = Some (u "finding onefinding two") ∧
    requests w' !! 3%nat
    = Some (RunAsync writer_runner (u "42") (u "tg_42")
              (Some (u "finding one" ++ nl ++ u "finding two"))) ∧
    u "finding one" ++ nl ++ u "finding two" ≠ u "finding onefinding two".
Proof. eexists. by split_and!. Qed.

End ReportPipelineRuns.

(** ** The handlers, step by step *)

Section HandlerSteps.

Import Bot.

Variable env : environment.

Lemma index_lookup {A} (xs : list A) (i : Z) (x : A) :
  0 <= i → xs !! Z.to_nat i = Some x → index xs i = inr x.
Proof.
  intros Hi Hx. unfold index.
  assert ((i <? 0) = false) as -> by (apply Z.ltb_ge; lia).
  cbv zeta. assert ((i <? 0) = false) as -> by (apply Z.ltb_ge; lia).
  by rewrite Hx.
Qed.

Lemma index_out_of_range {A} (xs : list A) (i : Z) :
  len xs <= i → index xs i = inl IndexError.
Proof.
  intros Hi. unfold index. unfold len in *.
  assert ((i <? 0) = false) as -> by (apply Z.ltb_ge; lia).
  cbv zeta. assert ((i <? 0) = false) as -> by (apply Z.ltb_ge; lia).
  rewrite lookup_ge_None_2 by lia. done.
Qed.

Lemma send_reliable (m : sent) (w : world) :
  reliable_transport env → send env m w = (add_sent m w, inr tt).
Proof. intros Hrel. unfold send. by rewrite Hrel. Qed.

Lemma for_each_send_reliable {A} (f : A → sent) (xs : list A) :
  reliable_transport env →
  ∀ w, for_each xs (λ x, send env (f x)) w
       = ({| user := user w; requests := requests w;
             outbox := outbox w ++ (f <$> xs) |}, inr tt).
Proof.
  intros Hrel. induction xs as [|x xs IH]; intros w.
  - simpl. unfold ret. rewrite app_nil_r. by destruct w.
  - cbn [for_each]. rewrite (bind_step _ _ _ _ _ (send_reliable _ _ Hrel)).
    rewrite IH. unfold add_sent. cbn [user requests outbox].
    by rewrite <- app_assoc.
Qed.

(** One step of a [let*]: the first computation returns. *)
Ltac mstep tac := erewrite bind_step; [| solve [tac]]; cbv beta iota zeta.

Lemma get_stage_step (w : world) (s : Stage) :
  stage (user w) = Some s →
  get stage WAITING_QUERY w = (w, inr s).
Proof. unfold get. by intros ->. Qed.

Lemma get_stage_default (w : world) :
  stage (user w) = None →
  get stage WAITING_QUERY w = (w, inr WAITING_QUERY).
Proof. unfold get. by intros ->. Qed.

Lemma item_step {A} (f : user_data → option A) (w : world) (a : A) :
  f (user w) = Some a → item f w = (w, inr a).
Proof. unfold item. by intros ->. Qed.

(** An answer to the first or the second question is recorded, the
    cursor moves on and the next question is sent. *)
Lemma handle_text_asking_next (update : Update) (w : world) (i : Z)
    (qs : list pystr) (ans : dict pystr) (current_q next_q : pystr) :
  reliable_transport env →
  stage (user w) = Some ASKING →
  q_idx (user w) = Some i →
  questions (user w) = Some qs →
  answers (user w) = Some ans →
  0 <= i < 2 →
  qs !! Z.to_nat i = Some current_q →
  qs !! Z.to_nat (i + 1) = Some next_q →
  handle_text env update w
  = (add_sent (Reply next_q)
       (with_user (set_q_idx (i + 1))
          (with_user (set_answers (dict_set ans current_q (strip (message_text update))))
             w)),
     inr tt).
Proof.
  intros Hrel Hst Hi Hqs Hans Hrange Hcur Hnext. unfold handle_text.
  mstep ltac:(by apply get_stage_step).
  mstep ltac:(by apply item_step).
  mstep ltac:(by apply item_step).
  mstep ltac:(unfold lift; by rewrite (index_lookup qs i current_q)
                by (lia || done)).
  mstep ltac:(by apply item_step).
  mstep ltac:(reflexivity).
  mstep ltac:(reflexivity).
  assert ((i <? 2) = true) as -> by (apply Z.ltb_lt; lia).
  mstep ltac:(unfold lift; by rewrite (index_lookup qs (i + 1) next_q)
                by (lia || done)).
  by rewrite send_reliable.
Qed.

Lemma only_requests_bind {A B} (c : M A) (k : A → M B) :
  only_requests c → (∀ a, only_requests (k a)) → only_requests (bind c k).
Proof.
  intros Hc Hk w. specialize (Hc w). unfold bind.
  destruct (c w) as [w1 [e|a]]; [done|].
  cbn [fst] in Hc.
  destruct Hc as (Hu & Ho & more & Hm), (Hk a w1) as (Hu' & Ho' & more' & Hm').
  split_and!; [congruence | congruence |].
  exists (more ++ more'). by rewrite Hm', Hm, app_assoc.
Qed.

Lemma only_requests_pure {A} (r : exn + A) : only_requests (lift r).
Proof. intros w. split_and!; [done..|]. exists []. by rewrite app_nil_r. Qed.

Lemma only_requests_bound {A} (x : option A) : only_requests (bound x).
Proof.
  intros w. destruct x; (split_and!; [done..|]); exists []; by rewrite app_nil_r.
Qed.

Lemma only_requests_run (r : runner) (uid sid : pystr) (m : option pystr) :
  only_requests (run env r uid sid m).
Proof. intros w. split_and!; [done..|]. by eexists. Qed.

Lemma create_report_pipline_only_requests (user_id query : pystr) (answers : dict pystr) :
  only_requests (create_report_pipline env user_id query answers).
Proof.
  unfold create_report_pipline. cbv zeta.
  repeat first
    [ apply only_requests_bind; [| intros ?]
    | apply only_requests_run
    | apply only_requests_pure
    | apply only_requests_bound
    | apply (only_requests_pure (inr _)) ].
Qed.

(** The pipeline's first request is the refine request, whatever comes
    next. *)
Lemma create_report_pipline_first_request (user_id query : pystr)
    (answers : dict pystr) (w : world) :
  ∃ more,
    requests (create_report_pipline env user_id query answers w).1
    = requests w ++
      RunAsync refine_runner user_id (u "tg_" ++ user_id)
        (Some (combined_query_of query answers)) :: more.
Proof.
  unfold create_report_pipline. cbv zeta.
  erewrite bind_step by reflexivity.
  match goal with |- context [?c (add_request ?r w)] =>
    assert (only_requests c) as Hc end.
  { repeat first
      [ apply only_requests_bind; [| intros ?]
      | apply only_requests_run
      | apply only_requests_pure
      | apply only_requests_bound
      | apply (only_requests_pure (inr _)) ]. }
  match goal with |- context [?c (add_request ?r w)] =>
    destruct (Hc (add_request r w)) as (_ & _ & more & ->) end.
  exists more. cbn [requests add_request]. by rewrite <- app_assoc.
Qed.

(** The answer to the third question is recorded, the user is told the
    report is being worked on, and the pipeline runs; when it returns the
    report is stored and sent in chunks, the e-mail question is asked and
    the stage becomes [EMAIL_DECISION]; when it raises, so does the
    handler, at that point. *)
Lemma handle_text_asking_last (update : Update) (w : world) (i : Z)
    (qs : list pystr) (ans : dict pystr) (current_q q : pystr) :
  reliable_transport env →
  stage (user w) = Some ASKING →
  q_idx (user w) = Some i →
  questions (user w) = Some qs →
  answers (user w) = Some ans →
  query (user w) = Some q →
  2 <= i →
  qs !! Z.to_nat i = Some current_q →
  let ans' := dict_set ans current_q (strip (message_text update)) in
  let w1 :=
    add_sent Typing
      (add_sent (Reply (u "I have all the information I need. I'm working on your report now."))
         (with_user (set_q_idx (i + 1)) (with_user (set_answers ans') w))) in
  handle_text env update w
  = match create_report_pipline env (str_of_int (effective_user_id update)) q ans' w1 with
    | (wp, inl e) => (wp, inl e)
    | (wp, inr report) =>
        (add_sent (Reply (u "Do you want to email the report to yourself? (yes/no)"))
           (with_user (set_stage EMAIL_DECISION)
              {| user := set_report report (user wp);
                 requests := requests wp;
                 outbox := outbox wp ++
                   ((λ chunk, ReplyMarkdownV2 (escape_markdown env chunk))
                      <$> _split_message report default_limit) |}),
         inr tt)
    end.
Proof.
  intros Hrel Hst Hi Hqs Hans Hq Hrange Hcur ans' w1. unfold handle_text.
  mstep ltac:(by apply get_stage_step).
  mstep ltac:(by apply item_step).
  mstep ltac:(by apply item_step).
  mstep ltac:(unfold lift; by rewrite (index_lookup qs i current_q)
                by (lia || done)).
  mstep ltac:(by apply item_step).
  mstep ltac:(reflexivity).
  mstep ltac:(reflexivity).
  assert ((i <? 2) = false) as -> by (apply Z.ltb_ge; lia).
  mstep ltac:(by apply send_reliable).
  mstep ltac:(by apply send_reliable).
  mstep ltac:(by apply item_step).
  mstep ltac:(by apply item_step).
  fold ans' w1.
  destruct (create_report_pipline _ _ _ _ w1) as [wp [e|report]] eqn:E.
  - by rewrite (bind_raise _ _ _ _ _ E).
  - rewrite (bind_step _ _ _ _ _ E).
    mstep ltac:(reflexivity).
    mstep ltac:(by apply for_each_send_reliable).
    mstep ltac:(reflexivity).
    by rewrite send_reliable.
Qed.

(** C5. From a session that has just entered [ASKING] with three
    distinct questions stored (cursor 0, no answer yet), three answer
    turns give: after the first and the second, stage [ASKING], cursor 1
    then 2, one more answer each time; after the third, cursor 3 and the
    three answers keyed by the three questions in the order asked; the
    third turn makes the refine request of the pipeline with the query and
    these answers, and when the pipeline returns a report the report is
    stored, sent in chunks, and the stage is [EMAIL_DECISION]. *)
Theorem three_answers_then_report (w : world) (u1 u2 u3 : Update)
    (q0 q1 q2 : pystr) (rest : list pystr) (q : pystr) :
  reliable_transport env →
  stage (user w) = Some ASKING →
  questions (user w) = Some (q0 :: q1 :: q2 :: rest) →
  q_idx (user w) = Some 0 →
  answers (user w) = Some [] →
  query (user w) = Some q →
  q0 ≠ q1 → q0 ≠ q2 → q1 ≠ q2 →
  let a1 := strip (message_text u1) in
  let a2 := strip (message_text u2) in
  let a3 := strip (message_text u3) in
  let uid := str_of_int (effective_user_id u3) in
  let s1 := handle_text env u1 w in
  let s2 := handle_text env u2 s1.1 in
  let s3 := handle_text env u3 s2.1 in
  let before_pipeline :=
    add_sent Typing
      (add_sent (Reply (u "I have all the information I need. I'm working on your report now."))
         (with_user (set_q_idx 3)
            (with_user (set_answers [(q0, a1); (q1, a2); (q2, a3)]) s2.1))) in
  (s1.2 = inr tt ∧ stage (user s1.1) = Some ASKING ∧
   q_idx (user s1.1) = Some 1 ∧ answers (user s1.1) = Some [(q0, a1)]) ∧
  (s2.2 = inr tt ∧ stage (user s2.1) = Some ASKING ∧
   q_idx (user s2.1) = Some 2 ∧ answers (user s2.1) = Some [(q0, a1); (q1, a2)] ∧
   requests s2.1 = requests w) ∧
  (q_idx (user s3.1) = Some 3 ∧
   answers (user s3.1) = Some [(q0, a1); (q1, a2); (q2, a3)]) ∧
  (∃ more,
     requests s3.1
     = requests w ++
       RunAsync refine_runner uid (u "tg_" ++ uid)
         (Some (combined_query_of q [(q0, a1); (q1, a2); (q2, a3)])) :: more) ∧
  (∀ wp r,
     create_report_pipline env uid q [(q0, a1); (q1, a2); (q2, a3)] before_pipeline
     = (wp, inr r) →
     s3.2 = inr tt ∧
     stage (user s3.1) = Some EMAIL_DECISION ∧
     report (user s3.1) = Some r ∧
     outbox s3.1
     = outbox w ++
       [Reply q1; Reply q2;
        Reply (u "I have all the information I need. I'm working on your report now.");
        Typing] ++
       ((λ chunk, ReplyMarkdownV2 (escape_markdown env chunk))
          <$> _split_message r default_limit) ++
       [Reply (u "Do you want to email the report to yourself? (yes/no)")]).
Proof.
  intros Hrel Hst Hqs Hi Hans Hq H01 H02 H12 a1 a2 a3 uid s1 s2 s3.
  set (w1 := add_sent (Reply q1)
               (with_user (set_q_idx 1) (with_user (set_answers [(q0, a1)]) w))).
  set (w2 := add_sent (Reply q2)
               (with_user (set_q_idx 2)
                  (with_user (set_answers [(q0, a1); (q1, a2)]) w1))).
  assert (s1 = (w1, inr tt)) as E1.
  { unfold s1.
    by rewrite (handle_text_asking_next u1 w 0 (q0 :: q1 :: q2 :: rest) [] q0 q1). }
  assert (s2 = (w2, inr tt)) as E2.
  { unfold s2. rewrite E1. cbn [fst].
    rewrite (handle_text_asking_next u2 w1 1 (q0 :: q1 :: q2 :: rest) [(q0, a1)] q1 q2);
      try done.
    cbn [dict_set]. by rewrite decide_False. }
  pose proof (handle_text_asking_last u3 w2 2 (q0 :: q1 :: q2 :: rest)
                [(q0, a1); (q1, a2)] q2 q Hrel Hst eq_refl Hqs eq_refl Hq
                ltac:(lia) eq_refl) as E3.
  cbn [dict_set] in E3. rewrite !decide_False in E3 by done.
  change (2 + 1) with 3 in E3. cbv zeta in E3. fold uid a3 in E3.
  intros before_pipeline. subst before_pipeline s3. rewrite E2, E1. cbn [fst snd].
  set (before_pipeline :=
         add_sent Typing
           (add_sent (Reply (u "I have all the information I need. I'm working on your report now."))
              (with_user (set_q_idx 3)
                 (with_user (set_answers [(q0, a1); (q1, a2); (q2, a3)]) w2)))) in *.
  rewrite E3. clear E3.
  destruct (create_report_pipline_only_requests uid q [(q0, a1); (q1, a2); (q2, a3)]
              before_pipeline) as (Hu & Ho & _).
  destruct (create_report_pipline_first_request uid q [(q0, a1); (q1, a2); (q2, a3)]
              before_pipeline) as (more & Hr).
  assert (requests before_pipeline = requests w) as Hrb by done.
  assert (outbox before_pipeline
          = outbox w ++ [Reply q1; Reply q2;
              Reply (u "I have all the information I need. I'm working on your report now.");
              Typing]) as Hob.
  { unfold before_pipeline, w2, w1. cbn [outbox add_sent with_user].
    by rewrite <- !app_assoc. }
  assert (user before_pipeline
          = set_q_idx 3 (set_answers [(q0, a1); (q1, a2); (q2, a3)]
              (set_q_idx 2 (set_answers [(q0, a1); (q1, a2)]
                 (set_q_idx 1 (set_answers [(q0, a1)] (user w))))))) as Hub
    by done.
  clearbody before_pipeline.
  destruct (create_report_pipline env uid q _ before_pipeline) as [wp [e|r]] eqn:Ep;
    cbn [fst] in Hu, Ho, Hr.
  - cbn [fst snd]. split_and!; try done.
    + by rewrite Hu, Hub.
    + by rewrite Hu, Hub.
    + exists more. by rewrite Hr, Hrb.
  - cbn [fst snd]. split_and!; try done.
    + cbn [user add_sent with_user]. by rewrite Hu, Hub.
    + cbn [user add_sent with_user]. by rewrite Hu, Hub.
    + exists more. cbn [requests add_sent with_user]. by rewrite Hr, Hrb.
    + intros wp' r' [= <- <-]. split_and!; try done.
      cbn [outbox add_sent with_user]. rewrite Ho, Hob.
      by rewrite <- !app_assoc.
Qed.

(** In [ASKING] with the cursor at or past the end of the questions,
    the handler raises [IndexError] at once and changes nothing. *)
Lemma handle_text_asking_past_end (update : Update) (w : world) (i : Z)
    (qs : list pystr) :
  stage (user w) = Some ASKING →
  q_idx (user w) = Some i →
  questions (user w) = Some qs →
  len qs <= i →
  handle_text env update w = (w, inl IndexError).
Proof.
  intros Hst Hi Hqs Hlen. unfold handle_text.
  mstep ltac:(by apply get_stage_step).
  mstep ltac:(by apply item_step).
  mstep ltac:(by apply item_step).
  apply bind_raise. unfold lift. by rewrite index_out_of_range.
Qed.

(** C7, as the code has it.  When the pipeline raises (the Reasoning
    Service failed in one of its stages), [handle_text] raises the same
    exception: no report is stored, nothing is delivered after the notice
    and the typing action (no report chunk, no failure message), and the
    session stays in [ASKING] with the cursor moved past the answered
    question. *)
Theorem pipeline_failure_propagates (update : Update) (w wp : world) (i : Z)
    (qs : list pystr) (ans : dict pystr) (current_q q : pystr) (e : exn) :
  reliable_transport env →
  stage (user w) = Some ASKING →
  q_idx (user w) = Some i →
  questions (user w) = Some qs →
  answers (user w) = Some ans →
  query (user w) = Some q →
  2 <= i →
  qs !! Z.to_nat i = Some current_q →
  let ans' := dict_set ans current_q (strip (message_text update)) in
  let notice := Reply (u "I have all the information I need. I'm working on your report now.") in
  create_report_pipline env (str_of_int (effective_user_id update)) q ans'
    (add_sent Typing
       (add_sent notice (with_user (set_q_idx (i + 1)) (with_user (set_answers ans') w))))
  = (wp, inl e) →
  let s := handle_text env update w in
  s.2 = inl e ∧
  stage (user s.1) = Some ASKING ∧
  q_idx (user s.1) = Some (i + 1) ∧
  report (user s.1) = report (user w) ∧
  outbox s.1 = outbox w ++ [notice; Typing].
Proof.
  intros Hrel Hst Hi Hqs Hans Hq Hrange Hcur ans' notice Hp s.
  pose proof (handle_text_asking_last update w i qs ans current_q q
                Hrel Hst Hi Hqs Hans Hq Hrange Hcur) as E.
  cbv zeta in E. fold ans' notice in E. rewrite Hp in E.
  destruct (create_report_pipline_only_requests
              (str_of_int (effective_user_id update)) q ans'
              (add_sent Typing
                 (add_sent notice
                    (with_user (set_q_idx (i + 1)) (with_user (set_answers ans') w)))))
    as (Hu & Ho & _).
  rewrite Hp in Hu, Ho. cbn [fst] in Hu, Ho.
  unfold s. rewrite E. cbn [fst snd]. rewrite Hu, Ho.
  split_and!; try done.
  cbn [outbox add_sent with_user]. by rewrite <- app_assoc.
Qed.

(** The service raising in the refine stage makes the pipeline raise. *)
Lemma create_report_pipline_refine_raises (user_id query : pystr)
    (answers : dict pystr) (w : world) (e : exn) :
  refine_loop (run_async env (requests w) refine_runner user_id (u "tg_" ++ user_id)
                 (Some (combined_query_of query answers))) = inl e →
  (create_report_pipline env user_id query answers w).2 = inl e.
Proof.
  intros He. unfold create_report_pipline. cbv zeta.
  erewrite bind_step by reflexivity.
  erewrite bind_raise; [done|]. unfold lift. by rewrite He.
Qed.

(** The first message of a conversation: the clarify runner is asked,
    the session data is set for [ASKING] with what remains of the
    questions after the first is dropped, and the first question is
    looked up and sent. *)
Lemma handle_text_waiting_query (update : Update) (w : world) (raw : list pystr) :
  reliable_transport env →
  stage (user w) = None ∨ stage (user w) = Some WAITING_QUERY →
  let uid := str_of_int (effective_user_id update) in
  let text := strip (message_text update) in
  create_session env (requests w) uid (u "tg_" ++ uid) = None →
  clarify_loop
    (run_async env (requests w ++ [CreateSession uid (u "tg_" ++ uid)])
       clarify_runner uid (u "tg_" ++ uid) (Some text)) [] = inr raw →
  let w1 :=
    with_user (update_asking (drop 1 raw) text)
      (add_request (RunAsync clarify_runner uid (u "tg_" ++ uid) (Some text))
         (add_request (CreateSession uid (u "tg_" ++ uid)) (add_sent Typing w))) in
  handle_text env update w
  = match drop 1 raw with
    | [] => (w1, inl IndexError)
    | q0 :: _ => (add_sent (Reply q0) w1, inr tt)
    end.
Proof.
  intros Hrel Hst uid text Hcs Hloop w1. unfold handle_text.
  mstep ltac:(destruct Hst; [by apply get_stage_default | by apply get_stage_step]).
  mstep ltac:(by apply send_reliable).
  mstep ltac:(unfold new_session; cbn [requests add_sent]; fold uid; by rewrite Hcs).
  mstep ltac:(reflexivity).
  mstep ltac:(unfold lift; cbn [requests add_sent add_request]; fold uid text;
              by rewrite Hloop).
  mstep ltac:(reflexivity).
  fold uid text w1. destruct (drop 1 raw) as [|q0 qs'].
  - by apply bind_raise.
  - mstep ltac:(reflexivity). by rewrite send_reliable.
Qed.

(** An answer to the first or second question when no next question is
    stored: the answer is recorded and the cursor moved, then the lookup
    of the next question raises. *)
Lemma handle_text_asking_no_next (update : Update) (w : world) (i : Z)
    (qs : list pystr) (ans : dict pystr) (current_q : pystr) :
  stage (user w) = Some ASKING →
  q_idx (user w) = Some i →
  questions (user w) = Some qs →
  answers (user w) = Some ans →
  0 <= i < 2 →
  qs !! Z.to_nat i = Some current_q →
  len qs <= i + 1 →
  handle_text env update w
  = (with_user (set_q_idx (i + 1))
       (with_user (set_answers (dict_set ans current_q (strip (message_text update)))) w),
     inl IndexError).
Proof.
  intros Hst Hi Hqs Hans Hrange Hcur Hlen. unfold handle_text.
  mstep ltac:(by apply get_stage_step).
  mstep ltac:(by apply item_step).
  mstep ltac:(by apply item_step).
  mstep ltac:(unfold lift; by rewrite (index_lookup qs i current_q)
                by (lia || done)).
  mstep ltac:(by apply item_step).
  mstep ltac:(reflexivity).
  mstep ltac:(reflexivity).
  assert ((i <? 2) = true) as -> by (apply Z.ltb_lt; lia).
  apply bind_raise. unfold lift. by rewrite index_out_of_range.
Qed.

(** What [clarify_loop] leaves in [questions]: the lines of the first
    fragment of the last final event that has fragments. *)
Lemma clarify_loop_last_text (s : stream) :
  ∀ qs raw, clarify_loop s qs = inr raw →
    Forall (λ f, f = [] ∨ ∃ t more, f = Some t :: more) (final_fragments s) ∧
    raw = match last (filter (λ f, f ≠ []) (final_fragments s)) with
          | Some (Some t :: _) => question_lines t
          | _ => qs
          end.
Proof.
  induction s as [| e | event rest IH]; intros qs raw.
  - intros [= <-]. by split.
  - done.
  - cbn [clarify_loop]. rewrite final_fragments_yield.
    destruct (is_final_response event); [|apply IH].
    unfold fragments. destruct (content event) as [c|].
    + destruct (parts c) as [[|p ps]|]; [done| |done].
      destruct (text p) as [t|] eqn:Et; [|done].
      intros H. apply IH in H as [Hall ->].
      change (or_empty (Some (p :: ps))) with (p :: ps). rewrite fmap_cons, Et. split.
      * constructor; [right; by eexists _, _ | done].
      * rewrite filter_cons_True by done. rewrite last_cons.
        destruct (last _) as [f|] eqn:El; [|done].
        assert (f ∈ filter (λ f, f ≠ []) (final_fragments rest)) as Hin.
        { apply last_Some in El as [l' El]. rewrite El.
          apply elem_of_app. right. by left. }
        apply list_elem_of_filter in Hin as [Hne Hin].
        rewrite Forall_forall in Hall.
        destruct (Hall f Hin) as [->|(t' & more & ->)]; done.
    + intros H. apply IH in H as [Hall ->]. split.
      * constructor; [by left | done].
      * by rewrite filter_cons_False by (by intros []).
Qed.

(** C8. The questions kept are the non-blank lines of the clarify
    answer (split on newline, each stripped) without the first one.  When
    none is left, the lookup of the first question in the [WAITING_QUERY]
    handler raises [IndexError]; when one is left, that handler returns
    and the lookup of the next question in the [ASKING] handler raises
    [IndexError] on the first answer. *)
Theorem too_few_questions_raise (update next : Update) (w : world) (raw : list pystr) :
  reliable_transport env →
  stage (user w) = None ∨ stage (user w) = Some WAITING_QUERY →
  let uid := str_of_int (effective_user_id update) in
  let text := strip (message_text update) in
  let answer :=
    run_async env (requests w ++ [CreateSession uid (u "tg_" ++ uid)])
      clarify_runner uid (u "tg_" ++ uid) (Some text) in
  create_session env (requests w) uid (u "tg_" ++ uid) = None →
  clarify_loop answer [] = inr raw →
  let s1 := handle_text env update w in
  let s2 := handle_text env next s1.1 in
  raw = match last (filter (λ f, f ≠ []) (final_fragments answer)) with
        | Some (Some t :: _) => strip <$> filter (λ q, strip q ≠ []) (split_nl t)
        | _ => []
        end ∧
  stage (user s1.1) = Some ASKING ∧
  questions (user s1.1) = Some (drop 1 raw) ∧
  (length (drop 1 raw) = 0%nat → s1.2 = inl IndexError) ∧
  (length (drop 1 raw) = 1%nat → s1.2 = inr tt ∧ s2.2 = inl IndexError).
Proof.
  intros Hrel Hst uid text answer Hcs Hloop s1 s2.
  pose proof (handle_text_waiting_query update w raw Hrel Hst Hcs Hloop) as E.
  cbv zeta in E. fold uid text in E.
  split; [by apply clarify_loop_last_text in Hloop as [_ ?]|].
  subst s2. unfold s1. rewrite E. clear E.
  destruct (drop 1 raw) as [|q0 [|q1 qs']] eqn:Ed; cbn [fst snd length];
    (split_and!; [done | done | try done ..]).
  all: intros _; split; [done|].
  all: by erewrite (handle_text_asking_no_next next _ 0 [q0] [] q0).
Qed.

Lemma lstrip_elem_of (c : char) (s : pystr) :
  is_space c = false → c ∈ lstrip s ↔ c ∈ s.
Proof.
  intros Hc. induction s as [|x s IH]; [done|].
  cbn [lstrip]. destruct (is_space x) eqn:Hx; [|done].
  rewrite IH, elem_of_cons. split; [by right|].
  intros [->|?]; [congruence | done].
Qed.

(** [strip] keeps every character that is not a space. *)
Lemma strip_elem_of (c : char) (s : pystr) :
  is_space c = false → c ∈ strip s ↔ c ∈ s.
Proof.
  intros Hc. unfold strip.
  by rewrite elem_of_reverse, lstrip_elem_of, elem_of_reverse, lstrip_elem_of.
Qed.

(** C9. In [EMAIL_ADDR] with a report stored: a message without '@' is
    answered with the rejection, no request is made to the service (so no
    e-mail is sent) and the session data is unchanged; a message with '@'
    makes the request to the email runner, with the stored report and the
    stripped address in the prompt, and, once the loop over its events
    ends without the stream raising, "Sent!" is delivered and the stage is
    [WAITING_QUERY]. *)
Theorem email_address_step (update : Update) (w : world) (r : pystr) :
  reliable_transport env →
  stage (user w) = Some EMAIL_ADDR →
  report (user w) = Some r →
  let uid := str_of_int (effective_user_id update) in
  let email := strip (strip (message_text update)) in
  let prompt := u "Report to send:" ++ nl ++ nl ++ r ++ nl ++ nl ++
                u "E-mail address: " ++ email in
  let s := handle_text env update w in
  (64%N ∉ message_text update →
     s.2 = inr tt ∧ user s.1 = user w ∧ requests s.1 = requests w ∧
     outbox s.1
     = outbox w ++ [Reply (u "That doesn't look like an e-mail address. Try again.")]) ∧
  (64%N ∈ message_text update →
     email_loop (run_async env (requests w) email_runner uid (u "tg_" ++ uid)
                   (Some prompt)) = inr tt →
     s.2 = inr tt ∧
     stage (user s.1) = Some WAITING_QUERY ∧
     report (user s.1) = Some r ∧
     requests s.1
     = requests w ++ [RunAsync email_runner uid (u "tg_" ++ uid) (Some prompt)] ∧
     outbox s.1 = outbox w ++ [Typing; Reply (u "Sent! " ++ [9989%N])]).
Proof.
  intros Hrel Hst Hrep uid email prompt s. split.
  - intros Hat. subst s. unfold handle_text.
    mstep ltac:(by apply get_stage_step).
    fold uid email. unfold contains_char.
    rewrite bool_decide_eq_false_2
      by (unfold email; by rewrite !strip_elem_of by done).
    cbn [negb]. by rewrite send_reliable.
  - intros Hat Hloop. subst s. unfold handle_text.
    mstep ltac:(by apply get_stage_step).
    fold uid email. unfold contains_char.
    rewrite bool_decide_eq_true_2
      by (unfold email; by rewrite !strip_elem_of by done).
    cbn [negb].
    mstep ltac:(by apply send_reliable).
    mstep ltac:(by apply item_step).
    mstep ltac:(reflexivity).
    mstep ltac:(unfold lift; cbn [requests add_sent]; fold prompt; by rewrite Hloop).
    mstep ltac:(by apply send_reliable).
    unfold modify. cbn [fst snd]. split_and!; try done.
    cbn [outbox with_user add_sent add_request]. by rewrite <- app_assoc.
Qed.

End HandlerSteps.

(** ** Scripted conversations *)

Section ScriptedRuns.

Import Bot Scenario.

Lemma scripted_reliable (c : pystr) (r : stream) :
  reliable_transport (environment_with c r).
Proof. intros h m. reflexivity. Defined.

Lemma three_answers_then_report_witness :
  let w := run_all scripted
             [command_start; says 42 (u "What is quantum computing?")] initial_world in
  let u1 := {| effective_user_id := 42; message_text := u "physics" |} in
  let u2 := {| effective_user_id := 42; message_text := u "since 2020" |} in
  let u3 := {| effective_user_id := 42; message_text := u " overview " |} in
  let w3 := (handle_text scripted u3
               (handle_text scripted u2 (handle_text scripted u1 w).1).1).1 in
  stage (user w3) = Some EMAIL_DECISION ∧
  q_idx (user w3) = Some 3 ∧
  answers (user w3)
  = Some [(u "Which field?", u "physics"); (u "Which period?", u "since 2020");
          (u "How deep?", u "overview")] ∧
  report (user w3) = Some (u "Report body").
Proof.
  intros w u1 u2 u3 w3.
  pose proof (three_answers_then_report scripted w u1 u2 u3
                (u "Which field?") (u "Which period?") (u "How deep?") []
                (u "What is quantum computing?")
                (scripted_reliable _ _) eq_refl eq_refl eq_refl eq_refl eq_refl
                ltac:(discriminate) ltac:(discriminate) ltac:(discriminate)) as H.
  cbv zeta in H. destruct H as (_ & _ & (Hi & Ha) & _ & H).
  destruct (H _ _ eq_refl) as (_ & Hs & Hr & _).
  split_and!; [exact Hs | exact Hi | exact Ha | exact Hr].
Defined.

Lemma pipeline_failure_propagates_witness :
  let w := run_all refine_fails
             [command_start; says 42 (u "What is quantum computing?");
              says 42 (u "physics"); says 42 (u "since 2020")] initial_world in
  let s := handle_text refine_fails
             {| effective_user_id := 42; message_text := u "overview" |} w in
  s.2 = inl ServiceError ∧ stage (user s.1) = Some ASKING ∧ q_idx (user s.1) = Some 3.
Proof.
  intros w s.
  destruct (pipeline_failure_propagates refine_fails
              {| effective_user_id := 42; message_text := u "overview" |} w _ 2
              [u "Which field?"; u "Which period?"; u "How deep?"]
              [(u "Which field?", u "physics"); (u "Which period?", u "since 2020")]
              (u "How deep?") (u "What is quantum computing?") ServiceError
              (scripted_reliable _ _) eq_refl eq_refl eq_refl eq_refl eq_refl
              ltac:(lia) eq_refl eq_refl)
    as (Hr & Hs & Hi & _).
  split_and!; [exact Hr | exact Hs | exact Hi].
Defined.

(** The Reasoning Service fails in the refine stage of the pipeline: the
    handler raises, the last thing delivered is the typing action after
    the notice, no message tells the user that the report could not be
    generated, and the stage is still [ASKING], not [WAITING_QUERY]. *)
Lemma pipeline_failure_is_not_handled :
  let w := run_all refine_fails
             [command_start; says 42 (u "What is quantum computing?");
              says 42 (u "physics"); says 42 (u "since 2020")] initial_world in
  let s := dispatch refine_fails (says 42 (u "overview")) w in
  s.2 = inl ServiceError ∧
  stage (user s.1) = Some ASKING ∧
  stage (user s.1) ≠ Some WAITING_QUERY ∧
  report (user s.1) = None ∧
  outbox s.1
  = outbox w ++
    [Reply (u "I have all the information I need. I'm working on your report now.");
     Typing] ∧
  (dispatch refine_fails (says 42 (u "hello?")) s.1).2 = inl IndexError.
Proof. by split_and!. Qed.

Lemma too_few_questions_raise_witness :
  let hello := {| effective_user_id := 42; message_text := u "What is quantum computing?" |} in
  let reply := {| effective_user_id := 42; message_text := u "physics" |} in
  (handle_text no_question hello initial_world).2 = inl IndexError ∧
  (handle_text one_question hello initial_world).2 = inr tt ∧
  (handle_text one_question reply (handle_text one_question hello initial_world).1).2
  = inl IndexError.
Proof.
  intros hello reply.
  destruct (too_few_questions_raise no_question hello reply initial_world
              [u "Here are my questions:"]
              (scripted_reliable _ _) (or_introl eq_refl) eq_refl eq_refl)
    as (_ & _ & _ & Hnone & _).
  destruct (too_few_questions_raise one_question hello reply initial_world
              [u "Here are my questions:"; u "Which field?"]
              (scripted_reliable _ _) (or_introl eq_refl) eq_refl eq_refl)
    as (_ & _ & _ & _ & Hone).
  destruct (Hone eq_refl) as [H1 H2].
  split_and!; [exact (Hnone eq_refl) | exact H1 | exact H2].
Defined.

Lemma email_address_step_witness :
  let w := run_all scripted (three_answers ++ [says 42 (u "Yes")]) initial_world in
  stage (user w) = Some EMAIL_ADDR ∧
  let rejected := handle_text scripted
                    {| effective_user_id := 42; message_text := u "me at example.org" |} w in
  let accepted := handle_text scripted
                    {| effective_user_id := 42; message_text := u " me@example.org " |} w in
  stage (user rejected.1) = Some EMAIL_ADDR ∧ requests rejected.1 = requests w ∧
  stage (user accepted.1) = Some WAITING_QUERY ∧
  requests accepted.1
  = requests w ++
    [RunAsync email_runner (u "42") (u "tg_42")
       (Some (u "Report to send:" ++ nl ++ nl ++ u "Report body" ++ nl ++ nl ++
              u "E-mail address: me@example.org"))].
Proof.
  intros w. split; [reflexivity|]. intros rejected accepted.
  destruct (email_address_step scripted
              {| effective_user_id := 42; message_text := u "me at example.org" |}
              w (u "Report body") (scripted_reliable _ _) eq_refl eq_refl)
    as [Hno _].
  destruct (email_address_step scripted
              {| effective_user_id := 42; message_text := u " me@example.org " |}
              w (u "Report body") (scripted_reliable _ _) eq_refl eq_refl)
    as [_ Hyes].
  destruct (Hno ltac:(apply (bool_decide_unpack _); vm_compute; exact I))
    as (_ & Hu & Hr & _).
  destruct (Hyes ltac:(apply (bool_decide_unpack _); vm_compute; exact I) eq_refl)
    as (_ & Hs & _ & Hr' & _).
  subst rejected accepted.
  split_and!; [by rewrite Hu | exact Hr | exact Hs | exact Hr'].
Defined.

End ScriptedRuns.

(** ** The report and the e-mail stages *)

Create HintDb keeps discriminated.

Section ReportInvariant.

Import Bot.

Variable env : environment.

Lemma keeps_user_get {A} (f : user_data → option A) (d : A) : keeps_user (get f d).
Proof. done. Qed.
Lemma keeps_user_item {A} (f : user_data → option A) : keeps_user (item f).
Proof. done. Qed.
Lemma keeps_user_lift {A} (r : exn + A) : keeps_user (lift r).
Proof. done. Qed.
Lemma keeps_user_send (m : sent) : keeps_user (send env m).
Proof. intros w. unfold send. by destruct (deliver env (outbox w) m). Qed.
Lemma keeps_user_run (r : runner) (uid sid : pystr) (m : option pystr) :
  keeps_user (run env r uid sid m).
Proof. done. Qed.
Lemma keeps_user_new_session (uid sid : pystr) : keeps_user (new_session env uid sid).
Proof. done. Qed.
Lemma keeps_user_pipeline (uid q : pystr) (a : dict pystr) :
  keeps_user (create_report_pipline env uid q a).
Proof. intros w. by destruct (create_report_pipline_only_requests env uid q a w). Qed.
Lemma keeps_user_bind {A B} (c : M A) (k : A → M B) :
  keeps_user c → (∀ a, keeps_user (k a)) → keeps_user (bind c k).
Proof.
  intros Hc Hk w. specialize (Hc w). unfold bind.
  destruct (c w) as [w1 [e|a]]; [done|]. cbn [fst] in Hc. by rewrite Hk.
Qed.
Lemma keeps_user_for_each {A} (xs : list A) (body : A → M unit) :
  (∀ x, keeps_user (body x)) → keeps_user (for_each xs body).
Proof.
  intros Hb. induction xs as [|x xs IH]; [done|].
  cbn [for_each]. by apply keeps_user_bind.
Qed.

#[local] Hint Resolve keeps_user_get keeps_user_item keeps_user_lift keeps_user_send
  keeps_user_run keeps_user_new_session keeps_user_pipeline keeps_user_for_each
  : keeps.

Lemma triple_pre {A} (P P' : user_data → Prop) (c : M A) Q E :
  (∀ d, P d → P' d) → triple P' c Q E → triple P c Q E.
Proof. intros HP H w Hw. by apply H, HP. Qed.

Lemma triple_bind {A B} (P : user_data → Prop) (c : M A) (k : A → M B) Q R E :
  triple P c Q E → (∀ a, triple (Q a) (k a) R E) → triple P (bind c k) R E.
Proof.
  intros Hc Hk w Hw. specialize (Hc w Hw). unfold bind.
  destruct (c w) as [w1 [e|a]]; [done|]. by apply Hk.
Qed.

Lemma triple_get {A} (P : user_data → Prop) (f : user_data → option A) (d : A) E :
  triple P (get f d) (λ a ud, P ud ∧ a = default d (f ud)) E.
Proof. by intros w Hw. Qed.

Lemma triple_keep {A} (P : user_data → Prop) (c : M A) (Q : A → user_data → Prop) E :
  keeps_user c → (∀ d, P d → E d) → (∀ d a, P d → Q a d) → triple P c Q E.
Proof.
  intros Hc HE HQ w Hw. specialize (Hc w).
  destruct (c w) as [w1 [e|a]]; cbn [fst] in Hc; rewrite Hc; auto.
Qed.

Lemma triple_keep_bind {A B} (P : user_data → Prop) (c : M A) (k : A → M B) Q E :
  keeps_user c → (∀ d, P d → E d) → (∀ a, triple P (k a) Q E) →
  triple P (bind c k) Q E.
Proof.
  intros Hc HE Hk. apply (triple_bind P c k (λ _, P)); [|done].
  by apply triple_keep.
Qed.

Lemma triple_modify (P : user_data → Prop) (f : user_data → user_data) Q E :
  (∀ d, P d → Q tt (f d)) → triple P (modify f) Q E.
Proof. intros H w Hw. by apply H. Qed.

Lemma triple_modify_bind {B} (P P' : user_data → Prop) (f : user_data → user_data)
    (k : unit → M B) Q E :
  (∀ d, P d → P' (f d)) → triple P' (k tt) Q E → triple P (bind (modify f) k) Q E.
Proof.
  intros Hf Hk. apply (triple_bind P _ k (λ _, P')).
  - by apply triple_modify.
  - by intros [].
Qed.

(** Steps that leave the session data alone, up to the next [modify]. *)
Ltac keep_steps :=
  repeat (apply triple_keep_bind; [solve [auto with keeps] | done | intros ?]).

(** [handle_text] keeps the invariant, whether it returns or raises. *)
Lemma handle_text_report_invariant (update : Update) :
  triple report_invariant (handle_text env update)
    (λ _, report_invariant) report_invariant.
Proof.
  unfold handle_text.
  eapply triple_bind; [apply triple_get|]. intros s. cbv beta zeta.
  set (not_email := λ d, stage d ≠ Some EMAIL_DECISION ∧ stage d ≠ Some EMAIL_ADDR).
  set (has_report := λ d, is_Some (report d)).
  assert (∀ d, not_email d → report_invariant d) as H0
    by (intros d [? ?] [?|?]; congruence).
  assert (∀ d, has_report d → report_invariant d) as H2 by (by intros d ? _).
  destruct s.
  - apply (triple_pre _ not_email).
    { intros d [Hd Hs]. unfold not_email. destruct (stage d) as [[]|]; done. }
    keep_steps.
    apply (triple_modify_bind _ not_email); [done|].
    keep_steps. apply triple_keep; auto with keeps.
  - apply (triple_pre _ not_email).
    { intros d [Hd Hs]. unfold not_email. destruct (stage d) as [[]|]; done. }
    keep_steps.
    apply (triple_modify_bind _ not_email); [done|].
    apply (triple_modify_bind _ not_email); [done|].
    destruct (_ <? 2).
    + keep_steps. apply triple_keep; auto with keeps.
    + keep_steps.
      apply (triple_modify_bind _ has_report); [by eexists|].
      keep_steps.
      apply (triple_modify_bind _ has_report); [done|].
      apply triple_keep; auto with keeps.
  - apply (triple_pre _ has_report).
    { intros d [Hd Hs]. apply Hd. destruct (stage d) as [[]|]; auto; done. }
    destruct (bool_decide _).
    + apply (triple_modify_bind _ has_report); [done|].
      apply triple_keep; auto with keeps.
    + keep_steps. apply triple_modify. auto.
  - apply (triple_pre _ has_report).
    { intros d [Hd Hs]. apply Hd. destruct (stage d) as [[]|]; auto; done. }
    destruct (negb _).
    + apply triple_keep; auto with keeps.
    + keep_steps. apply triple_modify. auto.
Qed.

Lemma dispatch_report_invariant (i : incoming) (w : world) :
  report_invariant (user w) → report_invariant (user (dispatch env i w).1).
Proof.
  intros Hw. destruct i as [| | update]; cbn [dispatch].
  - unfold start, bind, modify, send. cbn [fst snd outbox with_user].
    destruct (deliver env _ _); by intros [?|?].
  - unfold cancel, bind, modify, send. cbn [fst snd outbox with_user].
    destruct (deliver env _ _); by intros [?|?].
  - pose proof (handle_text_report_invariant update w Hw) as H.
    by destruct (handle_text env update w) as [w' [e|a]].
Qed.

(** C6, as the code has it.  In every reachable session state, when the
    stage is [EMAIL_DECISION] or [EMAIL_ADDR] a report is stored.  (The
    converse does not hold: the report stays stored after the stage goes
    back to [WAITING_QUERY].) *)
Theorem report_defined_in_email_stages (w : world) :
  reachable env w →
  stage (user w) = Some EMAIL_DECISION ∨ stage (user w) = Some EMAIL_ADDR →
  is_Some (report (user w)).
Proof.
  intros Hreach. change (report_invariant (user w)).
  induction Hreach as [|w i _ IH].
  - by intros [?|?].
  - by apply dispatch_report_invariant.
Qed.

Lemma reachable_run_all (inputs : list incoming) :
  ∀ w, reachable env w → reachable env (run_all env inputs w).
Proof.
  induction inputs as [|i inputs IH]; intros w Hw; [done|].
  apply IH. by constructor.
Qed.

End ReportInvariant.

Section ReportInvariantRuns.

Import Bot Scenario.

Lemma report_defined_in_email_stages_witness :
  let w := run_all scripted three_answers initial_world in
  stage (user w) = Some EMAIL_DECISION ∧ is_Some (report (user w)).
Proof.
  intros w. split; [reflexivity|].
  apply (report_defined_in_email_stages scripted w).
  - apply reachable_run_all. constructor.
  - left. reflexivity.
Defined.

(** After the answer "no" to the e-mail question the stage is
    [WAITING_QUERY] again and the report is still stored: a reachable
    state where a report is defined outside the two e-mail stages. *)
Lemma report_survives_return_to_waiting_query :
  let w := run_all scripted (three_answers ++ [says 42 (u "no")]) initial_world in
  reachable scripted w ∧
  stage (user w) = Some WAITING_QUERY ∧
  report (user w) = Some (u "Report body") ∧
  ¬ (is_Some (report (user w)) ↔
     stage (user w) = Some EMAIL_DECISION ∨ stage (user w) = Some EMAIL_ADDR).
Proof.
  intros w. split_and!.
  - apply reachable_run_all. constructor.
  - reflexivity.
  - reflexivity.
  - intros [H _]. destruct (H ltac:(by eexists)) as [?|?]; discriminate.
Qed.

End ReportInvariantRuns.

(** * Further properties *)

(** ** [_split_message]: short texts, short lines, empty chunks, greed *)

Section SplitMessageMore.

Variable limit : Z.

Lemma split_loop_no_flush (lines : list pystr) :
  ∀ out buf, len buf + len (concat lines) <= limit →
    split_loop limit lines out buf = (out, buf ++ concat lines).
Proof.
  induction lines as [|line lines IH]; intros out buf Hlen; cbn [split_loop concat].
  - by rewrite app_nil_r.
  - cbn [concat] in Hlen. rewrite len_app in Hlen.
    assert (0 <= len (concat lines)) by (unfold len; lia).
    assert ((len buf + len line >? limit) = false) as ->.
    { destruct (Z.gtb_spec (len buf + len line) limit); [lia | done]. }
    rewrite IH by (rewrite len_app; lia). by rewrite <- app_assoc.
Qed.

(** A text that is not empty and fits in the limit comes back as one
    chunk, the text itself. *)
Theorem split_message_fits (md : pystr) :
  md ≠ [] → len md <= limit → _split_message md limit = [md].
Proof.
  intros Hne Hlen. unfold _split_message. cbv zeta.
  rewrite split_loop_no_flush
    by (rewrite splitlines_keepends_concat; unfold len at 1; simpl; lia).
  rewrite splitlines_keepends_concat. cbn [app]. by destruct md.
Qed.

Lemma split_loop_short_lines (lines : list pystr) :
  ∀ out buf,
    Forall (λ l, l ≠ [] ∧ len l <= limit) lines →
    Forall (λ c, c ≠ [] ∧ len c <= limit) out →
    len buf <= limit →
    Forall (λ c, c ≠ [] ∧ len c <= limit) (split_loop limit lines out buf).1 ∧
    len (split_loop limit lines out buf).2 <= limit.
Proof.
  induction lines as [|line lines IH]; intros out buf Hlines Hout Hbuf;
    cbn [split_loop]; [done|].
  inversion Hlines as [|? ? [Hne Hl] Hrest]; subst.
  destruct (Z.gtb_spec (len buf + len line) limit) as [Hgt|Hle].
  - apply IH; [done | | done].
    apply Forall_app. split; [done|]. constructor; [|done].
    split; [|done]. intros ->. unfold len in Hgt at 1. simpl in Hgt. lia.
  - apply IH; [done | done |]. by rewrite len_app.
Qed.

(** When no line is longer than the limit, no chunk is empty and no chunk
    is longer than the limit. *)
Theorem split_message_short_lines (md : pystr) :
  Forall (λ l, len l <= limit) (splitlines_keepends md) →
  Forall (λ c, c ≠ [] ∧ len c <= limit) (_split_message md limit).
Proof.
  intros Hshort.
  assert (Forall (λ l, l ≠ [] ∧ len l <= limit) (splitlines_keepends md)) as Hlines.
  { pose proof (splitlines_keepends_nonempty md) as Hne.
    rewrite Forall_forall in *. intros l Hl. split; auto. }
  assert (splitlines_keepends md = [] ∨ 0 <= limit) as [Hnil|Hlim].
  { destruct (splitlines_keepends md) as [|l ls]; [by left|]. right.
    inversion Hshort; subst. unfold len in *. lia. }
  { unfold _split_message. cbv zeta. rewrite Hnil. simpl. constructor. }
  destruct (split_loop_short_lines (splitlines_keepends md) [] [] Hlines)
    as [Hout Hbuf]; [constructor | by unfold len |].
  unfold _split_message. cbv zeta.
  destruct (split_loop limit (splitlines_keepends md) [] []) as [out buf].
  cbn [fst snd] in *. destruct buf as [|c buf]; [done|].
  apply Forall_app. split; [done|]. by repeat constructor.
Qed.

Lemma split_loop_nonempty_buffer (lines : list pystr) :
  ∀ out buf,
    Forall (λ l, l ≠ []) lines → buf ≠ [] →
    ∃ more, (split_loop limit lines out buf).1 = out ++ more ∧
            Forall (λ c, c ≠ []) more ∧
            (split_loop limit lines out buf).2 ≠ [].
Proof.
  induction lines as [|line lines IH]; intros out buf Hlines Hbuf; cbn [split_loop].
  - exists []. by rewrite app_nil_r.
  - inversion Hlines; subst. destruct (len buf + len line >? limit).
    + destruct (IH (out ++ [buf]) ([] ++ line)) as (more & -> & Hmore & Hb);
        [done | done |].
      exists (buf :: more). rewrite <- app_assoc. split_and!; [done | | done].
      by constructor.
    + apply IH; [done|]. by destruct buf.
Qed.

(** Only the first chunk can be empty. *)
Theorem split_message_only_first_empty (md : pystr) :
  Forall (λ c, c ≠ []) (tail (_split_message md limit)).
Proof.
  pose proof (splitlines_keepends_nonempty md) as Hne.
  unfold _split_message. cbv zeta.
  destruct (splitlines_keepends md) as [|line lines]; [constructor|].
  inversion Hne; subst. cbn [split_loop].
  destruct (len [] + len line >? limit); cbn [app].
  - destruct (split_loop_nonempty_buffer lines [[]] line) as (more & Hout & Hmore & Hb);
      [done | done |].
    destruct (split_loop limit lines [[]] line) as [out buf]. cbn [fst snd] in *.
    subst out. destruct buf as [|c buf]; [done|]. cbn [app tail].
    apply Forall_app. split; [done | by repeat constructor].
  - destruct (split_loop_nonempty_buffer lines [] line) as (more & Hout & Hmore & Hb);
      [done | done |].
    destruct (split_loop limit lines [] line) as [out buf]. cbn [fst snd app] in *.
    subst out. destruct buf as [|c buf]; [done|].
    assert (Forall (λ c, c ≠ []) (more ++ [c :: buf])) as Hall
      by (apply Forall_app; split; [done | by repeat constructor]).
    destruct (more ++ [c :: buf]); [constructor | by inversion Hall].
Qed.

Lemma greedy_snoc_flush (groups : list (list pystr)) (g : list pystr) (line : pystr) :
  greedy limit (groups ++ [g]) →
  limit < len (concat g) + len line →
  greedy limit ((groups ++ [g]) ++ [[line]]).
Proof.
  intros Hg Hlt. induction groups as [|g1 groups IH]; [by split|].
  destruct groups as [|g2 groups].
  - cbn [app greedy] in *. by destruct Hg as [? _].
  - cbn [app greedy] in Hg |- *. destruct Hg as [Hpair Hrest].
    split; [done|]. by apply IH.
Qed.

Lemma greedy_snoc_extend (groups : list (list pystr)) (g : list pystr) (line : pystr) :
  greedy limit (groups ++ [g]) → g ≠ [] →
  greedy limit (groups ++ [g ++ [line]]).
Proof.
  intros Hg Hne. induction groups as [|g1 groups IH]; [done|].
  destruct groups as [|g2 groups].
  - cbn [app greedy] in *. destruct g; [done|]. by destruct Hg.
  - cbn [app greedy] in Hg |- *. destruct Hg as [Hpair Hrest].
    split; [done|]. by apply IH.
Qed.

Lemma split_loop_greedy (lines : list pystr) :
  ∀ (gout : list (list pystr)) (gbuf : list pystr),
    greedy limit (gout ++ [gbuf]) → (gbuf = [] → gout = []) →
    ∃ (gout' : list (list pystr)) (gbuf' : list pystr),
      split_loop limit lines (@concat char <$> gout) (concat gbuf)
        = (@concat char <$> gout', concat gbuf') ∧
      concat gout' ++ gbuf' = concat gout ++ gbuf ++ lines ∧
      greedy limit (gout' ++ [gbuf']) ∧ (gbuf' = [] → gout' = []).
Proof.
  induction lines as [|line lines IH]; intros gout gbuf Hg Hnil.
  - exists gout, gbuf. by rewrite app_nil_r.
  - cbn [split_loop].
    destruct (Z.gtb_spec (len (concat gbuf) + len line) limit) as [Hgt|Hle].
    + destruct (IH (gout ++ [gbuf]) [line]) as (gout' & gbuf' & Heq & Hcat & ? & ?).
      * by apply greedy_snoc_flush.
      * done.
      * exists gout', gbuf'. split_and!; try done.
        -- rewrite <- Heq. f_equal.
           ++ by rewrite fmap_app.
           ++ simpl. by rewrite app_nil_r.
        -- rewrite Hcat, concat_app. simpl. by rewrite app_nil_r, <- app_assoc.
    + destruct (IH gout (gbuf ++ [line])) as (gout' & gbuf' & Heq & Hcat & ? & ?).
      * destruct gbuf as [|l0 gbuf].
        -- by rewrite (Hnil eq_refl).
        -- by apply greedy_snoc_extend.
      * by destruct gbuf.
      * exists gout', gbuf'. split_and!; try done.
        -- rewrite <- Heq. f_equal. rewrite concat_app. simpl. by rewrite app_nil_r.
        -- rewrite Hcat. by rewrite <- !app_assoc.
Qed.

(** The chunks are filled greedily: they are groups of consecutive lines
    of the text, and the first line of every chunk after the first would
    have taken the chunk before it over the limit. *)
Theorem split_message_greedy (md : pystr) :
  ∃ groups : list (list pystr),
    concat groups = splitlines_keepends md ∧
    _split_message md limit = @concat char <$> groups ∧
    greedy limit groups.
Proof.
  destruct (split_loop_greedy (splitlines_keepends md) [] [])
    as (gout & gbuf & Heq & Hcat & Hg & Hnil); [done | done |].
  cbn [fmap list_fmap concat app] in Heq, Hcat.
  unfold _split_message. cbv zeta. rewrite Heq.
  destruct (concat gbuf) as [|c buf] eqn:Hb.
  - assert (gbuf = []) as ->.
    { apply concat_nil_nonempty; [|done].
      pose proof (splitlines_keepends_nonempty md) as Hne.
      rewrite <- Hcat in Hne. by apply Forall_app in Hne as [_ ?]. }
    rewrite (Hnil eq_refl) in *. exists []. by rewrite app_nil_r in Hcat.
  - exists (gout ++ [gbuf]). split_and!; [| | done].
    + rewrite concat_app. simpl. by rewrite app_nil_r.
    + rewrite fmap_app. simpl. by rewrite Hb.
Qed.

End SplitMessageMore.

Section SplitMessageMoreRuns.

Lemma split_message_fits_witness :
  _split_message (u "ab" ++ [10%N] ++ u "cd") 6 = [u "ab" ++ [10%N] ++ u "cd"].
Proof.
  apply (split_message_fits 6 (u "ab" ++ [10%N] ++ u "cd")).
  - discriminate.
  - unfold len. simpl. lia.
Defined.

Lemma split_message_short_lines_witness :
  Forall (λ c, c ≠ [] ∧ len c <= 6)
    (_split_message (u "ab" ++ [10%N] ++ u "cd" ++ [10%N] ++ u "e") 6).
Proof.
  apply (split_message_short_lines 6 (u "ab" ++ [10%N] ++ u "cd" ++ [10%N] ++ u "e")).
  repeat constructor; unfold len; simpl; lia.
Defined.

End SplitMessageMoreRuns.

(** ** Search: what each provider contributes *)

Section SearchMore.

Import WebSearch.

(** [serp_search] returns at most five rows, one per organic result in
    order, each with a content; a missing link, title or snippet becomes
    the empty string; it raises exactly when the client does. *)
Theorem serp_search_rows (P : providers) (query : pystr) :
  match get_dict P query with
  | inl e => serp_search P query = inl e
  | inr results =>
      ∃ rows, serp_search P query = inr rows ∧
        length rows = (length (or_empty (organic_results results)) `min` 5)%nat ∧
        Forall (λ row, is_Some (content row)) rows ∧
        (λ row, (url row, title row, content row)) <$> rows
        = (λ item, (default [] (og_link item), default [] (og_title item),
                    Some (default [] (og_snippet item))))
          <$> take 5 (or_empty (organic_results results))
  end.
Proof.
  unfold serp_search. destruct (get_dict P query) as [e|results]; [done|].
  cbn [ebind]. eexists. split_and!; [done | | |].
  - rewrite length_fmap, length_take. lia.
  - apply Forall_fmap, Forall_true. intros item. by eexists.
  - rewrite <- list_fmap_compose. done.
Qed.

(** What the extraction loops leave in a row: the raw content of the
    last extracted page with the row's url, or no content when there is
    none. *)
Lemma attach_all_last_match (es : list extracted) (l : list source) :
  attach_all es l
  = (λ s, match last (filter (λ e, Some (url s) = ex_url e) es) with
          | Some e => set_content s (default [] (ex_raw_content e))
          | None => s
          end) <$> l.
Proof.
  induction es as [|e es IH] using rev_ind.
  - cbn. induction l as [|s l IHl]; [done|]. cbn. by rewrite <- IHl.
  - unfold attach_all in *. rewrite foldl_app. cbn [foldl]. rewrite IH.
    unfold attach. rewrite <- list_fmap_compose. apply list_fmap_ext.
    intros _ s _. cbn [compose]. rewrite filter_app, filter_cons, filter_nil.
    assert (∀ s', url s' = url s → title s' = title s →
              set_content s' (default [] (ex_raw_content e))
              = set_content s (default [] (ex_raw_content e))) as Hset.
    { intros s' Hu Ht. unfold set_content. by rewrite Hu, Ht. }
    destruct (last (filter (λ e0, Some (url s) = ex_url e0) es)) as [e'|] eqn:El.
    + cbn [url set_content]. destruct (decide (Some (url s) = ex_url e)).
      * rewrite last_snoc. by apply Hset.
      * by rewrite app_nil_r, El.
    + destruct (decide (Some (url s) = ex_url e)).
      * by rewrite last_snoc.
      * by rewrite app_nil_r, El.
Qed.

(** After a successful extraction, [tavily_search] returns the rows whose
    url is not in the failed list, each with the raw content of the last
    extracted page that has its url, and with no content when no extracted
    page has its url. *)
Theorem tavily_search_content (P : providers) (query : pystr)
    (response : tavily_response) (er : extract_response) :
  client_search P query = inr response →
  urls_to_extract_of (sources_of response) ≠ [] →
  client_extract P (urls_to_extract_of (sources_of response)) = inr er →
  tavily_search P query
  = inr (filter (λ s, Some (url s) ∉ failed_urls_of er)
           ((λ s, match last (filter (λ e, Some (url s) = ex_url e)
                                (or_empty (ex_results er))) with
                  | Some e => {| url := url s; title := title s;
                                 content := Some (default [] (ex_raw_content e)) |}
                  | None => {| url := url s; title := title s; content := None |}
                  end) <$> sources_of response)).
Proof.
  intros Hs Hu He.
  rewrite (tavily_search_extract P query response er Hs Hu He).
  rewrite attach_all_last_match. do 2 f_equal.
  apply list_fmap_ext. intros i s Hin.
  assert (content s = None) as Hc.
  { apply list_elem_of_lookup_2 in Hin. unfold sources_of in Hin.
    apply list_elem_of_fmap in Hin as (r & Hr & _). by rewrite Hr. }
  destruct (last _); [done|]. destruct s. cbn in *. by subst.
Qed.

(** When Tavily returns no result with a url, nothing is extracted: the
    rows come back as they are, without content, whatever the extraction
    would have done. *)
Theorem tavily_search_no_url (P : providers) (query : pystr)
    (response : tavily_response) :
  client_search P query = inr response →
  Forall (λ r, default [] (tr_url r) = []) (or_empty (tv_results response)) →
  tavily_search P query
  = inr ((λ r, {| url := []; title := default [] (tr_title r); content := None |})
         <$> or_empty (tv_results response)).
Proof.
  intros Hs Hall.
  rewrite (tavily_search_skip P query response Hs).
  - f_equal. unfold sources_of. apply list_fmap_ext. intros i r Hin.
    apply list_elem_of_lookup_2 in Hin. rewrite Forall_forall in Hall.
    by rewrite (Hall r Hin).
  - unfold urls_to_extract_of, sources_of.
    induction (or_empty (tv_results response)) as [|r rs IH]; [done|].
    inversion Hall as [|? ? Hr Hrs]; subst. rewrite fmap_cons, filter_cons.
    cbn [url]. rewrite Hr. case_decide; [done | by apply IH].
Qed.

Lemma tavily_search_length (P : providers) (query : pystr)
    (response : tavily_response) (rows : list source) :
  client_search P query = inr response →
  tavily_search P query = inr rows →
  (length rows ≤ length (or_empty (tv_results response)))%nat.
Proof.
  intros Hs. unfold tavily_search. rewrite Hs. cbn [ebind].
  assert (length (sources_of response) = length (or_empty (tv_results response)))
    as <- by (unfold sources_of; by rewrite length_fmap).
  destruct (urls_to_extract_of (sources_of response)); [by intros [= <-]|].
  destruct (client_extract P _) as [e|er]; [done|]. cbn [ebind].
  intros [= <-].
  assert (length (attach_all (or_empty (ex_results er)) (sources_of response))
          = length (sources_of response)) as Hlen.
  { rewrite <- (length_fmap url_title), attach_all_url_title. by rewrite length_fmap. }
  case_decide; [lia|]. rewrite <- Hlen. apply length_filter.
Qed.

(** [search_web] never returns more rows than Tavily found plus five. *)
Theorem search_web_size (P : providers) (query : pystr)
    (response : tavily_response) (rows : list source) :
  client_search P query = inr response →
  search_web P query = inr rows →
  (length rows ≤ length (or_empty (tv_results response)) + 5)%nat.
Proof.
  intros Hs. unfold search_web.
  destruct (tavily_search P query) as [e|a] eqn:Ea; [done|]. cbn [ebind].
  pose proof (tavily_search_length P query response a Hs Ea) as Ha.
  unfold serp_search. destruct (get_dict P query) as [e|results]; [done|].
  cbn [ebind]. intros [= <-].
  rewrite length_app, length_fmap, length_take. lia.
Qed.

End SearchMore.

Section SearchMoreRuns.

Import WebSearch.

Lemma tavily_search_content_witness :
  tavily_search Scenario.two_pages (u "topic")
  = inr [ {| url := u "https://a.example/1"; title := u "A1";
             content := Some (u "page one") |} ].
Proof.
  rewrite (tavily_search_content Scenario.two_pages (u "topic") _ _ eq_refl
             ltac:(done) eq_refl).
  vm_compute. reflexivity.
Defined.

Lemma tavily_search_no_url_witness :
  tavily_search Scenario.no_urls (u "topic")
  = inr [ {| url := []; title := u "A1"; content := None |};
          {| url := []; title := []; content := None |} ].
Proof.
  apply (tavily_search_no_url Scenario.no_urls (u "topic") _ eq_refl).
  by repeat constructor.
Defined.

Lemma search_web_size_witness :
  ∃ rows, search_web Scenario.two_pages (u "topic") = inr rows ∧ (length rows ≤ 2 + 5)%nat.
Proof.
  eexists. split; [reflexivity|].
  apply (search_web_size Scenario.two_pages (u "topic") _ _ eq_refl eq_refl).
Defined.

End SearchMoreRuns.

(** ** [create_report_pipline]: silent stages and the requests made *)

Section ReportPipelineMore.

Import Bot.

Variable env : environment.

Lemma refine_loop_no_final (s : stream) :
  Forall (λ event, is_final_response event = false) (events_of s) →
  refine_loop s = match stream_end s with Some e => inl e | None => inr None end.
Proof.
  induction s as [| e | event rest IH]; [done | done |].
  cbn [events_of refine_loop stream_end]. intros H. inversion H as [|? ? Hev Hrest]; subst.
  rewrite Hev. by apply IH.
Qed.

Lemma collect_loop_no_final (s : stream) (acc : list (option pystr)) :
  Forall (λ event, is_final_response event = false) (events_of s) →
  collect_loop s acc = match stream_end s with Some e => inl e | None => inr acc end.
Proof.
  induction s as [| e | event rest IH]; [done | done |].
  cbn [events_of collect_loop stream_end]. intros H. inversion H as [|? ? Hev Hrest]; subst.
  rewrite Hev. by apply IH.
Qed.

(** When the refine stream ends without a final response event, the
    pipeline raises [UnboundLocalError] after the refine request: no
    other runner is asked. *)
Theorem pipeline_refine_without_final (user_id query : pystr) (answers : dict pystr)
    (w : world) :
  let sid := u "tg_" ++ user_id in
  let s1 := run_async env (requests w) refine_runner user_id sid
              (Some (combined_query_of query answers)) in
  Forall (λ event, is_final_response event = false) (events_of s1) →
  stream_end s1 = None →
  create_report_pipline env user_id query answers w
  = (add_request (RunAsync refine_runner user_id sid
                    (Some (combined_query_of query answers))) w,
     inl UnboundLocalError).
Proof.
  intros sid s1 Hnone Hend. unfold create_report_pipline. cbv zeta.
  erewrite bind_step by reflexivity.
  erewrite bind_step
    by (unfold lift; fold sid s1; by rewrite (refine_loop_no_final s1 Hnone), Hend).
  by apply bind_raise.
Qed.

(** The four loops returning make the pipeline return, with four
    requests made. *)
Lemma create_report_pipline_runs (user_id query : pystr) (answers : dict pystr)
    (w : world) (refined_query search_plan : option pystr)
    (frags3 frags4 : list (option pystr)) (search_results report : pystr) :
  let sid := u "tg_" ++ user_id in
  let r1 := RunAsync refine_runner user_id sid (Some (combined_query_of query answers)) in
  let r2 := RunAsync planner_runner user_id sid refined_query in
  let r3 := RunAsync search_runner user_id sid search_plan in
  let r4 := RunAsync writer_runner user_id sid (Some search_results) in
  refine_loop (run_async env (requests w) refine_runner user_id sid
                 (Some (combined_query_of query answers)))
    = inr (Some refined_query) →
  planner_loop (run_async env (requests w ++ [r1]) planner_runner user_id sid
                  refined_query)
    = inr (Some search_plan) →
  collect_loop (run_async env (requests w ++ [r1; r2]) search_runner user_id sid
                  search_plan) [] = inr frags3 →
  join_lines frags3 = inr search_results →
  collect_loop (run_async env (requests w ++ [r1; r2; r3]) writer_runner user_id sid
                  (Some search_results)) [] = inr frags4 →
  join_lines frags4 = inr report →
  create_report_pipline env user_id query answers w
  = ({| user := user w; requests := requests w ++ [r1; r2; r3; r4];
        outbox := outbox w |}, inr report).
Proof.
  intros sid r1 r2 r3 r4. subst sid r1 r2 r3 r4. intros E1 E2 E3 J3 E4 J4.
  unfold create_report_pipline. cbv zeta.
  erewrite bind_step by reflexivity.
  erewrite bind_step by (unfold lift; by rewrite E1).
  erewrite bind_step by reflexivity.
  erewrite bind_step by reflexivity.
  erewrite bind_step by (unfold lift; cbn [requests add_request]; by rewrite E2).
  erewrite bind_step by reflexivity.
  erewrite bind_step by reflexivity.
  erewrite bind_step
    by (unfold lift; cbn [requests add_request]; rewrite <- app_assoc; cbn [app];
        by rewrite E3).
  erewrite bind_step by (unfold lift; by rewrite J3).
  erewrite bind_step by reflexivity.
  erewrite bind_step
    by (unfold lift; cbn [requests add_request]; rewrite <- !app_assoc; cbn [app];
        by rewrite E4).
  erewrite bind_step by (unfold lift; by rewrite J4).
  unfold ret, add_request. cbn [user requests outbox].
  by rewrite <- !app_assoc.
Qed.

(** When the writer stream ends without a final response event, the
    pipeline does not raise: it returns the empty string as the report. *)
Theorem pipeline_writer_without_final (user_id query : pystr) (answers : dict pystr)
    (w : world) (refined_query search_plan : option pystr)
    (frags3 : list (option pystr)) (search_results : pystr) :
  let sid := u "tg_" ++ user_id in
  let r1 := RunAsync refine_runner user_id sid (Some (combined_query_of query answers)) in
  let r2 := RunAsync planner_runner user_id sid refined_query in
  let r3 := RunAsync search_runner user_id sid search_plan in
  let s4 := run_async env (requests w ++ [r1; r2; r3]) writer_runner user_id sid
              (Some search_results) in
  refine_loop (run_async env (requests w) refine_runner user_id sid
                 (Some (combined_query_of query answers)))
    = inr (Some refined_query) →
  planner_loop (run_async env (requests w ++ [r1]) planner_runner user_id sid
                  refined_query)
    = inr (Some search_plan) →
  collect_loop (run_async env (requests w ++ [r1; r2]) search_runner user_id sid
                  search_plan) [] = inr frags3 →
  join_lines frags3 = inr search_results →
  Forall (λ event, is_final_response event = false) (events_of s4) →
  stream_end s4 = None →
  (create_report_pipline env user_id query answers w).2 = inr [].
Proof.
  intros sid r1 r2 r3 s4 E1 E2 E3 J3 Hnone Hend.
  rewrite (create_report_pipline_runs user_id query answers w refined_query
             search_plan frags3 [] search_results [] E1 E2 E3 J3); [done | | done].
  change (collect_loop s4 [] = inr []).
  by rewrite (collect_loop_no_final s4 [] Hnone), Hend.
Qed.

(** Whatever happens, the pipeline only makes requests to the refine,
    planner, search and writer runners, at most one each and in that
    order, all under the user's id and the session id "tg_" + user id. *)
Theorem pipeline_requests (user_id query : pystr) (answers : dict pystr) (w : world) :
  ∃ more,
    requests (create_report_pipline env user_id query answers w).1 = requests w ++ more ∧
    request_runner <$> more
      `prefix_of` [Some refine_runner; Some planner_runner;
                   Some search_runner; Some writer_runner] ∧
    Forall (λ rq, ∃ r m, rq = RunAsync r user_id (u "tg_" ++ user_id) m) more.
Proof.
  unfold create_report_pipline. cbv zeta.
  assert (∀ (w' : world) (r : exn + pystr) more,
            requests w' = requests w ++ more →
            request_runner <$> more
              `prefix_of` [Some refine_runner; Some planner_runner;
                           Some search_runner; Some writer_runner] →
            Forall (λ rq, ∃ r m, rq = RunAsync r user_id (u "tg_" ++ user_id) m) more →
            ∃ more, requests (w', r).1 = requests w ++ more ∧
              request_runner <$> more
                `prefix_of` [Some refine_runner; Some planner_runner;
                             Some search_runner; Some writer_runner] ∧
              Forall (λ rq, ∃ r m, rq = RunAsync r user_id (u "tg_" ++ user_id) m) more)
    as Hfinish by (intros w' r more ? ? ?; by exists more).
  erewrite bind_step by reflexivity.
  destruct (refine_loop _) as [e|[refined_query|]].
  { erewrite bind_raise by reflexivity.
    eapply Hfinish; [done | by eexists | repeat constructor; by eexists _, _]. }
  2:{ erewrite bind_step by reflexivity. erewrite bind_raise by reflexivity.
      eapply Hfinish; [done | by eexists | repeat constructor; by eexists _, _]. }
  do 3 erewrite bind_step by reflexivity.
  destruct (planner_loop _) as [e|[search_plan|]].
  { erewrite bind_raise by reflexivity.
    eapply Hfinish; [cbn [requests add_request]; by rewrite <- app_assoc
                    | by eexists | repeat constructor; by eexists _, _]. }
  2:{ erewrite bind_step by reflexivity. erewrite bind_raise by reflexivity.
      eapply Hfinish; [cbn [requests add_request]; by rewrite <- app_assoc
                      | by eexists | repeat constructor; by eexists _, _]. }
  do 3 erewrite bind_step by reflexivity.
  destruct (collect_loop _ _) as [e|frags3].
  { erewrite bind_raise by reflexivity.
    eapply Hfinish; [cbn [requests add_request]; by rewrite <- !app_assoc
                    | by eexists | repeat constructor; by eexists _, _]. }
  erewrite bind_step by reflexivity.
  destruct (join_lines frags3) as [e|search_results].
  { erewrite bind_raise by reflexivity.
    eapply Hfinish; [cbn [requests add_request]; by rewrite <- !app_assoc
                    | by eexists | repeat constructor; by eexists _, _]. }
  do 2 erewrite bind_step by reflexivity.
  destruct (collect_loop _ _) as [e|frags4].
  { erewrite bind_raise by reflexivity.
    eapply Hfinish; [cbn [requests add_request]; by rewrite <- !app_assoc
                    | by eexists | repeat constructor; by eexists _, _]. }
  erewrite bind_step by reflexivity.
  destruct (join_lines frags4) as [e|report].
  { erewrite bind_raise by reflexivity.
    eapply Hfinish; [cbn [requests add_request]; by rewrite <- !app_assoc
                    | by eexists | repeat constructor; by eexists _, _]. }
  erewrite bind_step by reflexivity.
  eapply Hfinish; [cbn [requests add_request]; by rewrite <- !app_assoc
                  | by eexists | repeat constructor; by eexists _, _].
Qed.

End ReportPipelineMore.

Section ReportPipelineMoreRuns.

Import Bot Scenario.

Lemma pipeline_refine_without_final_witness :
  create_report_pipline refine_silent (u "42") (u "topic") [] initial_world
  = (add_request (RunAsync refine_runner (u "42") (u "tg_42")
                    (Some (combined_query_of (u "topic") []))) initial_world,
     inl UnboundLocalError).
Proof.
  apply (pipeline_refine_without_final refine_silent (u "42") (u "topic") [] initial_world).
  - by repeat constructor.
  - reflexivity.
Defined.

Lemma pipeline_writer_without_final_witness :
  (create_report_pipline writer_silent (u "42") (u "topic") [] initial_world).2 = inr [].
Proof.
  apply (pipeline_writer_without_final writer_silent (u "42") (u "topic") [] initial_world
           (Some (u "refined")) (Some (u "plan"))
           [Some (u "finding one"); Some (u "finding two")]
           (u "finding one" ++ nl ++ u "finding two")
           eq_refl eq_refl eq_refl eq_refl).
  - by repeat constructor.
  - reflexivity.
Defined.

End ReportPipelineMoreRuns.

(** ** The handlers: commands, the e-mail question, failures *)

Section HandlersMore.

Import Bot.

Variable env : environment.

(** One step of a [let*] whose first computation returns. *)
Ltac mstep tac := erewrite bind_step; [| solve [tac]]; cbv beta iota zeta.

(** [/start] leaves only the stage [WAITING_QUERY] in the session data
    and [/cancel] leaves nothing, a stored report included, whether the
    reply is delivered or the transport raises; neither makes a request
    to the service. *)
Theorem commands_clear_session (w : world) :
  user (start env w).1 = set_stage WAITING_QUERY cleared ∧
  requests (start env w).1 = requests w ∧
  user (cancel env w).1 = cleared ∧
  requests (cancel env w).1 = requests w.
Proof.
  unfold start, cancel, bind, modify, send. cbn [outbox with_user].
  split_and!; by destruct (deliver env _ _).
Qed.

(** In [EMAIL_DECISION], a text whose lower case is one of "yes", "y",
    "yeah", "sure" (after stripping) moves the stage to [EMAIL_ADDR] and
    asks for the address; any other text moves it to [WAITING_QUERY];
    either way no request is made and the other session data stay. *)
Theorem email_decision_step (update : Update) (w : world) :
  reliable_transport env →
  stage (user w) = Some EMAIL_DECISION →
  let text := strip (message_text update) in
  (lower env text ∈ affirmations →
   handle_text env update w
   = (add_sent (Reply (u "Great! Please provide the email address."))
        (with_user (set_stage EMAIL_ADDR) w), inr tt)) ∧
  (lower env text ∉ affirmations →
   handle_text env update w
   = (with_user (set_stage WAITING_QUERY)
        (add_sent (Reply (u "No problem. Do you have any question?")) w), inr tt)).
Proof.
  intros Hrel Hst text. split; intros Hin; unfold handle_text.
  - mstep ltac:(by apply get_stage_step).
    fold text. rewrite bool_decide_eq_true_2 by done.
    mstep ltac:(reflexivity). by rewrite send_reliable.
  - mstep ltac:(by apply get_stage_step).
    fold text. rewrite bool_decide_eq_false_2 by done.
    mstep ltac:(by apply send_reliable). done.
Qed.

(** In [EMAIL_ADDR], when the stream of the email runner raises before a
    final response, the handler raises: "Sent!" is not delivered and the
    session data are unchanged, so the stage is still [EMAIL_ADDR]. *)
Theorem email_runner_failure (update : Update) (w : world) (r : pystr) (e : exn) :
  reliable_transport env →
  stage (user w) = Some EMAIL_ADDR →
  report (user w) = Some r →
  64%N ∈ message_text update →
  let uid := str_of_int (effective_user_id update) in
  let email := strip (strip (message_text update)) in
  let prompt := u "Report to send:" ++ nl ++ nl ++ r ++ nl ++ nl ++
                u "E-mail address: " ++ email in
  email_loop (run_async env (requests w) email_runner uid (u "tg_" ++ uid)
                (Some prompt)) = inl e →
  handle_text env update w
  = (add_request (RunAsync email_runner uid (u "tg_" ++ uid) (Some prompt))
       (add_sent Typing w), inl e).
Proof.
  intros Hrel Hst Hrep Hat uid email prompt Hloop. unfold handle_text.
  mstep ltac:(by apply get_stage_step).
  fold uid email. unfold contains_char.
  rewrite bool_decide_eq_true_2
    by (unfold email; by rewrite !strip_elem_of by done).
  cbn [negb].
  mstep ltac:(by apply send_reliable).
  mstep ltac:(by apply item_step).
  mstep ltac:(reflexivity).
  apply bind_raise. unfold lift. cbn [requests add_sent]. fold prompt.
  by rewrite Hloop.
Qed.

(** When the clarify answer repeats a question, the second answer
    replaces the first under the same key: after two answers there is one
    entry, not two. *)
Theorem repeated_question_overwrites (w : world) (u1 u2 : Update)
    (q0 q2 : pystr) (rest : list pystr) :
  reliable_transport env →
  stage (user w) = Some ASKING →
  questions (user w) = Some (q0 :: q0 :: q2 :: rest) →
  q_idx (user w) = Some 0 →
  answers (user w) = Some [] →
  let w2 := (handle_text env u2 (handle_text env u1 w).1).1 in
  q_idx (user w2) = Some 2 ∧
  answers (user w2) = Some [(q0, strip (message_text u2))].
Proof.
  intros Hrel Hst Hqs Hi Hans w2. subst w2.
  rewrite (handle_text_asking_next env u1 w 0 (q0 :: q0 :: q2 :: rest) [] q0 q0)
    by done.
  cbn [fst].
  erewrite (handle_text_asking_next env u2 _ 1 (q0 :: q0 :: q2 :: rest) _ q0 q2);
    try done.
  cbn [fst user add_sent with_user q_idx answers set_q_idx set_answers dict_set].
  by rewrite decide_True.
Qed.

(** With the cursor at or past the end of the stored questions (as after
    a failed pipeline run with three questions), every text message raises
    [IndexError] and changes nothing: the session stays as it is until
    [/start] or [/cancel]. *)
Theorem asking_past_end_is_stuck (w : world) (i : Z) (qs : list pystr)
    (updates : list Update) :
  stage (user w) = Some ASKING →
  q_idx (user w) = Some i →
  questions (user w) = Some qs →
  len qs <= i →
  run_all env (text_message <$> updates) w = w ∧
  Forall (λ update, handle_text env update w = (w, inl IndexError)) updates.
Proof.
  intros Hst Hi Hqs Hlen. split.
  - induction updates as [|update updates IH]; [done|].
    rewrite fmap_cons. unfold run_all. cbn [foldl dispatch].
    by rewrite (handle_text_asking_past_end env update w i qs).
  - apply Forall_forall. intros update _.
    by apply (handle_text_asking_past_end env update w i qs).
Qed.

(** When the pipeline returns the empty string, no report message is
    sent: the empty report is stored and the e-mail question follows the
    typing action directly. *)
Theorem empty_report_sends_no_chunk (update : Update) (w wp : world) (i : Z)
    (qs : list pystr) (ans : dict pystr) (current_q q : pystr) :
  reliable_transport env →
  stage (user w) = Some ASKING →
  q_idx (user w) = Some i →
  questions (user w) = Some qs →
  answers (user w) = Some ans →
  query (user w) = Some q →
  2 <= i →
  qs !! Z.to_nat i = Some current_q →
  let ans' := dict_set ans current_q (strip (message_text update)) in
  let notice := Reply (u "I have all the information I need. I'm working on your report now.") in
  create_report_pipline env (str_of_int (effective_user_id update)) q ans'
    (add_sent Typing
       (add_sent notice (with_user (set_q_idx (i + 1)) (with_user (set_answers ans') w))))
  = (wp, inr []) →
  let s := handle_text env update w in
  s.2 = inr tt ∧
  stage (user s.1) = Some EMAIL_DECISION ∧
  report (user s.1) = Some [] ∧
  outbox s.1
  = outbox w ++
    [notice; Typing; Reply (u "Do you want to email the report to yourself? (yes/no)")].
Proof.
  intros Hrel Hst Hi Hqs Hans Hq Hrange Hcur ans' notice Hp s.
  pose proof (handle_text_asking_last env update w i qs ans current_q q
                Hrel Hst Hi Hqs Hans Hq Hrange Hcur) as E.
  cbv zeta in E. fold ans' notice in E. rewrite Hp in E.
  destruct (create_report_pipline_only_requests env
              (str_of_int (effective_user_id update)) q ans'
              (add_sent Typing
                 (add_sent notice
                    (with_user (set_q_idx (i + 1)) (with_user (set_answers ans') w)))))
    as (_ & Ho & _).
  rewrite Hp in Ho. cbn [fst] in Ho.
  unfold s. rewrite E. cbn [fst snd]. split_and!; try done.
  cbn [outbox add_sent with_user]. rewrite Ho.
  change (_split_message [] default_limit) with (@nil (list N)).
  cbn [fmap list_fmap outbox add_sent with_user]. by rewrite app_nil_r, <- !app_assoc.
Qed.

(** A text message in [WAITING_QUERY] (or with no stage stored, as after
    [/cancel]) whose clarify answer leaves at least one question: a
    session is created and the clarify runner asked under "tg_" + user id;
    the stripped text is stored as the query with the questions, no
    answer and cursor 0; a report stored earlier stays; the typing action
    and the first question are delivered. *)
Theorem new_query_starts_asking (update : Update) (w : world)
    (preamble q0 : pystr) (more : list pystr) :
  reliable_transport env →
  stage (user w) = None ∨ stage (user w) = Some WAITING_QUERY →
  let uid := str_of_int (effective_user_id update) in
  let text := strip (message_text update) in
  create_session env (requests w) uid (u "tg_" ++ uid) = None →
  clarify_loop
    (run_async env (requests w ++ [CreateSession uid (u "tg_" ++ uid)])
       clarify_runner uid (u "tg_" ++ uid) (Some text)) []
  = inr (preamble :: q0 :: more) →
  let s := handle_text env update w in
  s.2 = inr tt ∧
  user s.1
  = {| stage := Some ASKING; questions := Some (q0 :: more); query := Some text;
       answers := Some []; q_idx := Some 0; report := report (user w) |} ∧
  requests s.1
  = requests w ++ [CreateSession uid (u "tg_" ++ uid);
                   RunAsync clarify_runner uid (u "tg_" ++ uid) (Some text)] ∧
  outbox s.1 = outbox w ++ [Typing; Reply q0].
Proof.
  intros Hrel Hst uid text Hcs Hloop s.
  pose proof (handle_text_waiting_query env update w _ Hrel Hst Hcs Hloop) as E.
  cbv zeta in E. cbn [drop] in E. subst s. rewrite E. cbn [fst snd].
  split_and!; try done.
  - cbn [requests add_sent with_user add_request]. by rewrite <- app_assoc.
  - cbn [outbox add_sent with_user add_request]. by rewrite <- app_assoc.
Qed.

End HandlersMore.

Section HandlersMoreRuns.

Import Bot Scenario.

Lemma email_down_reliable : reliable_transport email_down.
Proof. intros h m. reflexivity. Defined.

Lemma writer_silent_reliable : reliable_transport writer_silent.
Proof. intros h m. reflexivity. Defined.

Lemma email_decision_step_witness :
  let w := run_all scripted three_answers initial_world in
  stage (user (handle_text scripted
                 {| effective_user_id := 42; message_text := u " Yes" |} w).1)
  = Some EMAIL_ADDR ∧
  stage (user (handle_text scripted
                 {| effective_user_id := 42; message_text := u "maybe" |} w).1)
  = Some WAITING_QUERY.
Proof.
  intros w.
  destruct (email_decision_step scripted
              {| effective_user_id := 42; message_text := u " Yes" |} w
              (scripted_reliable _ _) eq_refl) as [Hyes _].
  destruct (email_decision_step scripted
              {| effective_user_id := 42; message_text := u "maybe" |} w
              (scripted_reliable _ _) eq_refl) as [_ Hno].
  rewrite (Hyes ltac:(apply (bool_decide_unpack _); vm_compute; exact I)).
  rewrite (Hno ltac:(apply (bool_decide_unpack _); vm_compute; exact I)).
  split; reflexivity.
Defined.

Lemma email_runner_failure_witness :
  let w := run_all email_down (three_answers ++ [says 42 (u "yes")]) initial_world in
  let s := handle_text email_down
             {| effective_user_id := 42; message_text := u "me@example.org" |} w in
  s.2 = inl ServiceError ∧ stage (user s.1) = Some EMAIL_ADDR.
Proof.
  intros w s. subst s.
  rewrite (email_runner_failure email_down
             {| effective_user_id := 42; message_text := u "me@example.org" |} w
             (u "Report body") ServiceError email_down_reliable eq_refl eq_refl
             ltac:(apply (bool_decide_unpack _); vm_compute; exact I) eq_refl).
  split; reflexivity.
Defined.

Lemma repeated_question_overwrites_witness :
  let w := run_all repeated_question
             [command_start; says 42 (u "What is quantum computing?")] initial_world in
  let w2 := (handle_text repeated_question
               {| effective_user_id := 42; message_text := u "second" |}
               (handle_text repeated_question
                  {| effective_user_id := 42; message_text := u "first" |} w).1).1 in
  q_idx (user w2) = Some 2 ∧ answers (user w2) = Some [(u "Which field?", u "second")].
Proof.
  intros w.
  apply (repeated_question_overwrites repeated_question w
           {| effective_user_id := 42; message_text := u "first" |}
           {| effective_user_id := 42; message_text := u "second" |}
           (u "Which field?") (u "How deep?") [] (scripted_reliable _ _)
           eq_refl eq_refl eq_refl eq_refl).
Defined.

Lemma asking_past_end_is_stuck_witness :
  let w := run_all refine_fails three_answers initial_world in
  run_all refine_fails [says 42 (u "hello?"); says 42 (u "anyone?")] w = w.
Proof.
  intros w.
  apply (asking_past_end_is_stuck refine_fails w 3
           [u "Which field?"; u "Which period?"; u "How deep?"]
           [ {| effective_user_id := 42; message_text := u "hello?" |};
             {| effective_user_id := 42; message_text := u "anyone?" |} ]
           eq_refl eq_refl eq_refl).
  unfold len. simpl. lia.
Defined.

Lemma empty_report_sends_no_chunk_witness :
  let w := run_all writer_silent
             [command_start; says 42 (u "What is quantum computing?");
              says 42 (u "physics"); says 42 (u "since 2020")] initial_world in
  let s := handle_text writer_silent
             {| effective_user_id := 42; message_text := u "overview" |} w in
  s.2 = inr tt ∧ stage (user s.1) = Some EMAIL_DECISION ∧ report (user s.1) = Some [].
Proof.
  intros w s.
  destruct (empty_report_sends_no_chunk writer_silent
              {| effective_user_id := 42; message_text := u "overview" |} w _ 2
              [u "Which field?"; u "Which period?"; u "How deep?"]
              [(u "Which field?", u "physics"); (u "Which period?", u "since 2020")]
              (u "How deep?") (u "What is quantum computing?")
              writer_silent_reliable eq_refl eq_refl eq_refl eq_refl eq_refl
              ltac:(lia) eq_refl eq_refl)
    as (Hr & Hs & Hrep & _).
  split_and!; [exact Hr | exact Hs | exact Hrep].
Defined.

End HandlersMoreRuns.

(** ** What [handle_text] keeps, whether it returns or raises *)

Section SessionInvariants.

Import Bot.

Variable env : environment.

#[local] Hint Resolve keeps_user_get keeps_user_item keeps_user_lift keeps_user_send
  keeps_user_run keeps_user_new_session keeps_user_pipeline keeps_user_for_each
  : keeps.

Lemma triple_item {A} (P : user_data → Prop) (f : user_data → option A) E :
  (∀ d, P d → E d) → triple P (item f) (λ a d, P d ∧ f d = Some a) E.
Proof.
  intros HE w Hw. unfold item. destruct (f (user w)) eqn:Ef; cbn; auto.
Qed.

Lemma triple_lift {A} (P : user_data → Prop) (r : exn + A) E :
  (∀ d, P d → E d) → triple P (lift r) (λ a d, P d ∧ r = inr a) E.
Proof. intros HE w Hw. unfold lift. destruct r; cbn; auto. Qed.

Lemma triple_false {A} (c : M A) Q E : triple (λ _, False) c Q E.
Proof. by intros w []. Qed.

(** Steps that leave the session data alone, with [tac] showing that the
    assertion at hand is fine for a raise. *)
Ltac keep_all tac :=
  repeat (apply triple_keep_bind; [solve [auto with keeps] | solve [tac] | intros ?]).
Ltac keep_last tac :=
  apply triple_keep;
  [solve [auto with keeps] | solve [tac] | intros ? ?; solve [tac]].

(** *** The stored report *)

Lemma handle_text_has_report (update : Update) :
  triple (λ d, is_Some (report d)) (handle_text env update)
    (λ _ d, is_Some (report d)) (λ d, is_Some (report d)).
Proof.
  unfold handle_text.
  apply (triple_bind _ _ _ (λ _ d, is_Some (report d))); [by keep_last ltac:(auto)|].
  intros s. cbv beta zeta. set (P := λ d, is_Some (report d)).
  destruct s.
  - keep_all ltac:(auto). apply (triple_modify_bind _ P); [done|].
    keep_all ltac:(auto). keep_last ltac:(auto).
  - keep_all ltac:(auto).
    apply (triple_modify_bind _ P); [done|].
    apply (triple_modify_bind _ P); [done|].
    destruct (_ <? 2).
    + keep_all ltac:(auto). keep_last ltac:(auto).
    + keep_all ltac:(auto).
      apply (triple_modify_bind _ P); [by eexists|].
      keep_all ltac:(auto).
      apply (triple_modify_bind _ P); [done|]. keep_last ltac:(auto).
  - destruct (bool_decide _).
    + apply (triple_modify_bind _ P); [done|]. keep_last ltac:(auto).
    + keep_all ltac:(auto). by apply triple_modify.
  - destruct (negb _).
    + keep_last ltac:(auto).
    + keep_all ltac:(auto). by apply triple_modify.
Qed.

Lemma handle_text_same_report (update : Update) (r0 : option pystr) :
  triple (λ d, report d = r0 ∧ current_stage d ≠ ASKING) (handle_text env update)
    (λ _ d, report d = r0) (λ d, report d = r0).
Proof.
  unfold handle_text.
  eapply triple_bind; [apply triple_get|]. intros s. cbv beta zeta.
  set (P := λ d : user_data, report d = r0).
  destruct s.
  - apply (triple_pre _ P); [by intros d [[? ?] ?]|].
    keep_all ltac:(auto). apply (triple_modify_bind _ P); [done|].
    keep_all ltac:(auto). keep_last ltac:(auto).
  - apply (triple_pre _ (λ _, False)); [|apply triple_false].
    intros d [[_ Hne] Hs]. by apply Hne.
  - apply (triple_pre _ P); [by intros d [[? ?] ?]|].
    destruct (bool_decide _).
    + apply (triple_modify_bind _ P); [done|]. keep_last ltac:(auto).
    + keep_all ltac:(auto). by apply triple_modify.
  - apply (triple_pre _ P); [by intros d [[? ?] ?]|].
    destruct (negb _).
    + keep_last ltac:(auto).
    + keep_all ltac:(auto). by apply triple_modify.
Qed.

(** [handle_text] never deletes a stored report, and outside [ASKING] it
    does not change it: only a new pipeline result replaces it. *)
Theorem handle_text_keeps_report (update : Update) (w : world) :
  (is_Some (report (user w)) →
   is_Some (report (user (handle_text env update w).1))) ∧
  (current_stage (user w) ≠ ASKING →
   report (user (handle_text env update w).1) = report (user w)).
Proof.
  split.
  - intros Hw. pose proof (handle_text_has_report update w Hw) as H.
    by destruct (handle_text env update w) as [w' [e|a]].
  - intros Hw.
    pose proof (handle_text_same_report update (report (user w)) w (conj eq_refl Hw)) as H.
    by destruct (handle_text env update w) as [w' [e|a]].
Qed.

(** *** The moves of the stage *)

Lemma handle_text_moves (update : Update) (s0 : Stage) :
  triple (λ d, current_stage d = s0) (handle_text env update)
    (λ _, moved s0) (moved s0).
Proof.
  unfold handle_text.
  eapply triple_bind; [apply triple_get|]. intros s. cbv beta zeta.
  set (here := λ (t : Stage) (d : user_data), s0 = s ∧ current_stage d = t).
  assert (∀ d, here s d → moved s0 d) as Hstay
    by (intros d [Hs Hd]; left; congruence).
  destruct s.
  - apply (triple_pre _ (here WAITING_QUERY));
      [intros d [H1 H2]; unfold here, current_stage in *; split; congruence|].
    keep_all ltac:(exact Hstay).
    apply (triple_modify_bind _ (here ASKING)); [by intros d [? _]|].
    assert (∀ d, here ASKING d → moved s0 d) as Hgo.
    { intros d [-> Hd]. right. rewrite Hd. by apply (bool_decide_unpack _). }
    keep_all ltac:(exact Hgo). keep_last ltac:(auto).
  - apply (triple_pre _ (here ASKING));
      [intros d [H1 H2]; unfold here, current_stage in *; split; congruence|].
    keep_all ltac:(exact Hstay).
    apply (triple_modify_bind _ (here ASKING)); [done|].
    apply (triple_modify_bind _ (here ASKING)); [done|].
    destruct (_ <? 2).
    + keep_all ltac:(exact Hstay). keep_last ltac:(auto).
    + keep_all ltac:(exact Hstay).
      apply (triple_modify_bind _ (here ASKING)); [done|].
      keep_all ltac:(exact Hstay).
      apply (triple_modify_bind _ (here EMAIL_DECISION)); [by intros d [? _]|].
      assert (∀ d, here EMAIL_DECISION d → moved s0 d) as Hgo.
      { intros d [-> Hd]. right. rewrite Hd. by apply (bool_decide_unpack _). }
      keep_last ltac:(auto).
  - apply (triple_pre _ (here EMAIL_DECISION));
      [intros d [H1 H2]; unfold here, current_stage in *; split; congruence|].
    destruct (bool_decide _).
    + apply (triple_modify_bind _ (here EMAIL_ADDR)); [by intros d [? _]|].
      assert (∀ d, here EMAIL_ADDR d → moved s0 d) as Hgo.
      { intros d [-> Hd]. right. rewrite Hd. by apply (bool_decide_unpack _). }
      keep_last ltac:(auto).
    + keep_all ltac:(exact Hstay). apply triple_modify.
      intros d [-> _]. right. by apply (bool_decide_unpack _).
  - apply (triple_pre _ (here EMAIL_ADDR));
      [intros d [H1 H2]; unfold here, current_stage in *; split; congruence|].
    destruct (negb _).
    + keep_last ltac:(auto).
    + keep_all ltac:(exact Hstay). apply triple_modify.
      intros d [-> _]. right. by apply (bool_decide_unpack _).
Qed.

(** Whatever the service and the transport do, one call of [handle_text]
    leaves the stage where it was or moves it along one of
    WAITING_QUERY -> ASKING, ASKING -> EMAIL_DECISION,
    EMAIL_DECISION -> EMAIL_ADDR, EMAIL_DECISION -> WAITING_QUERY,
    EMAIL_ADDR -> WAITING_QUERY. *)
Theorem handle_text_stage_moves (update : Update) (w : world) :
  let s := current_stage (user w) in
  let s' := current_stage (user (handle_text env update w).1) in
  s' = s ∨ (s, s') ∈ transitions.
Proof.
  pose proof (handle_text_moves update (current_stage (user w)) w eq_refl) as H.
  by destruct (handle_text env update w) as [w' [e|a]].
Qed.

(** *** The fields of a conversation under way *)

Lemma index_inr_lt {A} (xs : list A) (i : Z) (x : A) :
  0 <= i → index xs i = inr x → i < len xs.
Proof.
  intros Hi. unfold index.
  assert ((i <? 0) = false) as -> by (apply Z.ltb_ge; lia).
  cbv zeta. assert ((i <? 0) = false) as -> by (apply Z.ltb_ge; lia).
  destruct (xs !! Z.to_nat i) eqn:E; [|done]. intros _.
  apply lookup_lt_Some in E. unfold len. lia.
Qed.

Lemma dict_set_length {V} (d : dict V) (k : pystr) (v : V) :
  len (dict_set d k v) <= len d + 1.
Proof.
  unfold len. induction d as [|[k' v'] d IH]; cbn [dict_set]; [simpl; lia|].
  case_decide; simpl in *; lia.
Qed.

Lemma handle_text_session_invariant (update : Update) :
  triple session_invariant (handle_text env update)
    (λ _, session_invariant) session_invariant.
Proof.
  unfold handle_text.
  eapply triple_bind; [apply triple_get|]. intros s. cbv beta zeta.
  assert (∀ d, conversation_fields d → session_invariant d) as Hcf
    by (by intros d H _).
  destruct s.
  - set (idle := λ d, stage d = None ∨ stage d = Some WAITING_QUERY).
    assert (∀ d, idle d → session_invariant d) as Hidle
      by (intros d [?|?] [?|[?|?]]; congruence).
    apply (triple_pre _ idle).
    { intros d [_ Hs]. unfold idle. destruct (stage d) as [[]|]; auto; done. }
    keep_all ltac:(exact Hidle).
    apply (triple_modify_bind _ conversation_fields).
    { intros d _. eexists 0, _, [], _. cbn. split_and!; try done.
      unfold len. lia. }
    keep_all ltac:(exact Hcf). keep_last ltac:(auto).
  - apply (triple_pre _ conversation_fields).
    { intros d [Hinv Hs]. apply Hinv. destruct (stage d) as [[]|]; auto; done. }
    eapply triple_bind; [apply triple_item; exact Hcf|]. intros i.
    eapply triple_bind; [apply triple_item; by intros d [? _]; auto|]. intros qs.
    eapply triple_bind; [apply triple_lift; by intros d [[? _] _]; auto|]. intros current_q.
    eapply triple_bind; [apply triple_item; by intros d [[[? _] _] _]; auto|]. intros ans.
    apply (triple_modify_bind _
             (λ d, q_idx d = Some i ∧ questions d = Some qs ∧
                   (∃ ans' q, answers d = Some ans' ∧ query d = Some q ∧
                              len ans' <= i + 1) ∧
                   0 <= i < len qs)).
    { intros d [[[[Hfields Hi] Hqs] Hcur] Hans].
      destruct Hfields as (i' & qs' & ans0 & q & Hi' & Hqs' & Hans' & Hq & Hrange & Hlen).
      rewrite Hi in Hi'. rewrite Hqs in Hqs'. rewrite Hans in Hans'.
      injection Hi' as <-. injection Hqs' as <-. injection Hans' as <-.
      pose proof (index_inr_lt qs i current_q ltac:(lia) Hcur).
      cbn. split_and!; try done; try lia.
      eexists _, q. split_and!; try done.
      pose proof (dict_set_length ans current_q (strip (message_text update))). lia. }
    apply (triple_modify_bind _ conversation_fields).
    { intros d (Hi & Hqs & (ans' & q & Hans & Hq & Hlen) & Hrange).
      exists (i + 1), qs, ans', q. cbn. split_and!; try done; lia. }
    destruct (_ <? 2).
    + keep_all ltac:(exact Hcf). keep_last ltac:(auto).
    + keep_all ltac:(exact Hcf).
      apply (triple_modify_bind _ conversation_fields); [done|].
      keep_all ltac:(exact Hcf).
      apply (triple_modify_bind _ conversation_fields); [done|].
      keep_last ltac:(auto).
  - apply (triple_pre _ conversation_fields).
    { intros d [Hinv Hs]. apply Hinv. destruct (stage d) as [[]|]; auto; done. }
    destruct (bool_decide _).
    + apply (triple_modify_bind _ conversation_fields); [done|].
      keep_last ltac:(auto).
    + keep_all ltac:(exact Hcf). apply triple_modify. auto.
  - apply (triple_pre _ conversation_fields).
    { intros d [Hinv Hs]. apply Hinv. destruct (stage d) as [[]|]; auto; done. }
    destruct (negb _).
    + keep_last ltac:(auto).
    + keep_all ltac:(exact Hcf). apply triple_modify. auto.
Qed.

Lemma dispatch_session_invariant (i : incoming) (w : world) :
  session_invariant (user w) → session_invariant (user (dispatch env i w).1).
Proof.
  intros Hw. destruct i as [| | update]; cbn [dispatch].
  - unfold start, bind, modify, send. cbn [fst snd outbox with_user].
    destruct (deliver env _ _); by intros [?|[?|?]].
  - unfold cancel, bind, modify, send. cbn [fst snd outbox with_user].
    destruct (deliver env _ _); by intros [?|[?|?]].
  - pose proof (handle_text_session_invariant update w Hw) as H.
    by destruct (handle_text env update w) as [w' [e|a]].
Qed.

(** In every reachable session state with stage [ASKING],
    [EMAIL_DECISION] or [EMAIL_ADDR], the query, the questions, the
    answers and the cursor are all stored, the cursor is between 0 and the
    number of questions, and there are at most as many answers as the
    cursor says. *)
Theorem conversation_fields_stored (w : world) :
  reachable env w →
  stage (user w) = Some ASKING ∨ stage (user w) = Some EMAIL_DECISION ∨
    stage (user w) = Some EMAIL_ADDR →
  ∃ i qs ans q,
    q_idx (user w) = Some i ∧ questions (user w) = Some qs ∧
    answers (user w) = Some ans ∧ query (user w) = Some q ∧
    0 <= i <= len qs ∧ len ans <= i.
Proof.
  intros Hreach. change (session_invariant (user w)).
  induction Hreach as [|w i _ IH].
  - by intros [?|[?|?]].
  - by apply dispatch_session_invariant.
Qed.

End SessionInvariants.

Section SessionInvariantsRuns.

Import Bot Scenario.

Lemma new_query_starts_asking_witness :
  let w := run_all scripted (three_answers ++ [says 42 (u "no")]) initial_world in
  let s := handle_text scripted
             {| effective_user_id := 42; message_text := u " Next topic? " |} w in
  s.2 = inr tt ∧
  user s.1
  = {| stage := Some ASKING;
       questions := Some [u "Which field?"; u "Which period?"; u "How deep?"];
       query := Some (u "Next topic?"); answers := Some []; q_idx := Some 0;
       report := Some (u "Report body") |}.
Proof.
  intros w s.
  destruct (new_query_starts_asking scripted
              {| effective_user_id := 42; message_text := u " Next topic? " |} w
              (u "Here are my questions:") (u "Which field?")
              [u "Which period?"; u "How deep?"]
              (scripted_reliable _ _) (or_intror eq_refl) eq_refl eq_refl)
    as (Hr & Hu & _).
  split; [exact Hr | exact Hu].
Defined.

Lemma handle_text_keeps_report_witness :
  let w := run_all scripted (three_answers ++ [says 42 (u "no")]) initial_world in
  report (user (handle_text scripted
                  {| effective_user_id := 42; message_text := u "Next topic?" |} w).1)
  = Some (u "Report body").
Proof.
  intros w.
  destruct (handle_text_keeps_report scripted
              {| effective_user_id := 42; message_text := u "Next topic?" |} w)
    as [_ Hsame].
  rewrite (Hsame ltac:(discriminate)). reflexivity.
Defined.

Lemma conversation_fields_stored_witness :
  let w := run_all scripted three_answers initial_world in
  ∃ i qs ans q,
    q_idx (user w) = Some i ∧ questions (user w) = Some qs ∧
    answers (user w) = Some ans ∧ query (user w) = Some q ∧
    0 <= i <= len qs ∧ len ans <= i.
Proof.
  intros w. apply (conversation_fields_stored scripted w).
  - apply reachable_run_all. constructor.
  - right. left. reflexivity.
Defined.

End SessionInvariantsRuns.
